(** * TcpSocket.js: a shallow embedding and its checked properties

    The module under study adapts a native TCP socket module
    (NativeModules.TcpSockets) to a Node-style socket object.  The
    development below follows src/TcpSocket.js function by function:

    - the JavaScript values, coercions and operators the module applies
      ([typeof], [ToBoolean], [ToNumber], [>>>], [|], [===], [>=], [<=]);
    - the module state ([usedIds]) and the host facilities it talks to
      (native module, DeviceEventEmitter, timers, console) as an explicit
      [World];
    - every method of [TcpSocket] as a function in a state-and-exception
      monad in which, as in JavaScript, the effects made before a [throw]
      stay made;
    - the callbacks and listeners of the caller as what they do to the
      socket: calls of its methods, then a return or a throw.
*)

From Stdlib Require Import ZArith QArith String Ascii List Bool Lia.
From Stdlib.Strings Require Import Byte.
From Stdlib Require Zbitwise.
Import ListNotations.

Set Warnings "-register-all".

Local Open Scope Z_scope.

(* ================================================================== *)
(** * JavaScript numbers *)
(* ================================================================== *)

(** A JavaScript number is NaN, an infinity, or a finite double.  A finite
    double is represented by the rational it denotes; the two zeros are
    identified (no operation of this module tells them apart: [===], [>=],
    [<=], [>>>] and [|] all treat -0 as 0).  Every operation the module
    applies to numbers is exact on the denoted value; the one rounding
    step, the conversion of a decimal string, is [roundToDouble]. *)
Inductive number : Type :=
| NaN
| Infinity (negative : bool)
| Finite (q : Q).

Definition ofZ (z : Z) : number := Finite (inject_Z z).

(** Truncation toward zero (the spec's [sign(x) * floor(abs(x))]). *)
Definition truncate (q : Q) : Z := Z.quot (Qnum q) (Z.pos (Qden q)).

(** [ToUint32]: the operand of [x >>> 0]. *)
Definition ToUint32 (n : number) : Z :=
  match n with
  | Finite q => (truncate q) mod 2 ^ 32
  | _ => 0
  end.

(** [ToInt32]: the operands of [x | y]. *)
Definition ToInt32 (n : number) : Z :=
  let u := ToUint32 n in
  if 2 ^ 31 <=? u then u - 2 ^ 32 else u.

(** [x === y] on numbers. *)
Definition number_strict_eq (x y : number) : bool :=
  match x, y with
  | Finite a, Finite b => Qeq_bool a b
  | Infinity s, Infinity t => Bool.eqb s t
  | _, _ => false
  end.

(** [x <= y] on numbers; false as soon as one side is NaN. *)
Definition number_le (x y : number) : bool :=
  match x, y with
  | NaN, _ | _, NaN => false
  | Infinity true, _ => true
  | _, Infinity false => true
  | Infinity false, _ => false
  | _, Infinity true => false
  | Finite a, Finite b => Qle_bool a b
  end.

Definition number_ge (x y : number) : bool := number_le y x.

(** [x > y] on numbers. *)
Definition number_gt (x y : number) : bool :=
  match x, y with
  | NaN, _ | _, NaN => false
  | _, _ => negb (number_le x y)
  end.

(** Round the positive rational [p / q] to the nearest double, ties to
    even; magnitudes of [2^1024] and more become Infinity, and the result
    below the least subnormal is 0. *)
Definition roundToDouble (p : Z) (q : positive) : number :=
  if p <=? 0 then Finite 0 else
  let lp := Z.log2 p in
  let lq := Z.log2 (Z.pos q) in
  let d := lp - lq in
  (* binade: 2^b <= p/q < 2^(b+1) *)
  let b := if 0 <=? d
           then (if Z.pos q * 2 ^ d <=? p then d else d - 1)
           else (if Z.pos q <=? p * 2 ^ (- d) then d else d - 1) in
  let e := Z.max (b - 52) (-1074) in
  let num := if 0 <=? e then p else p * 2 ^ (- e) in
  let den := if 0 <=? e then Z.pos q * 2 ^ e else Z.pos q in
  let fl := num / den in
  let r := num mod den in
  let m := if 2 * r <? den then fl
           else if den <? 2 * r then fl + 1
           else if Z.even fl then fl else fl + 1 in
  if 0 <=? e
  then (if 2 ^ 1024 <=? m * 2 ^ e then Infinity false
        else Finite (inject_Z (m * 2 ^ e)))
  else Finite (Qred (Qmake m (Z.to_pos (2 ^ (- e))))).

Definition negate (n : number) : number :=
  match n with
  | NaN => NaN
  | Infinity s => Infinity (negb s)
  | Finite q => Finite (Qopp q)
  end.

(* ================================================================== *)
(** * Strings and the string-to-number conversion *)
(* ================================================================== *)

(** Strings are sequences of code units below 256 (one [ascii] each). *)


(** WhiteSpace and LineTerminator code units below 256: TAB, LF, VT, FF,
    CR, SP, NBSP.  These are what [String.prototype.trim] strips and what
    a StringNumericLiteral may carry on both sides. *)
Definition isStrWhiteSpaceChar (c : ascii) : bool :=
  let n := N_of_ascii c in
  ((n =? 9) || (n =? 10) || (n =? 11) || (n =? 12) || (n =? 13)
   || (n =? 32) || (n =? 160))%N.

Fixpoint trimStart (s : list ascii) : list ascii :=
  match s with
  | c :: r => if isStrWhiteSpaceChar c then trimStart r else s
  | [] => []
  end.

Definition trimChars (s : list ascii) : list ascii :=
  rev (trimStart (rev (trimStart s))).

(** [s.trim()] *)
Definition trim (s : string) : string :=
  string_of_list_ascii (trimChars (list_ascii_of_string s)).

Definition digitValue (c : ascii) : option Z :=
  let n := Z.of_N (N_of_ascii c) in
  if (48 <=? n) && (n <=? 57) then Some (n - 48)
  else if (97 <=? n) && (n <=? 102) then Some (n - 87)
  else if (65 <=? n) && (n <=? 70) then Some (n - 55)
  else None.

Definition digitIn (base : Z) (c : ascii) : option Z :=
  match digitValue c with
  | Some d => if d <? base then Some d else None
  | None => None
  end.

(** Longest prefix of digits in [base]: its value on top of [acc], the
    number of digits read, and what follows. *)
Fixpoint takeDigits (base acc : Z) (count : Z) (s : list ascii)
  : Z * Z * list ascii :=
  match s with
  | c :: r =>
      match digitIn base c with
      | Some d => takeDigits base (acc * base + d) (count + 1) r
      | None => (acc, count, s)
      end
  | [] => (acc, count, [])
  end.

Definition chars_eqb (a b : list ascii) : bool :=
  String.eqb (string_of_list_ascii a) (string_of_list_ascii b).

(** ExponentPart, when present: [e] or [E], an optional sign, at least
    one digit, and nothing after it. *)
Definition exponentPart (s : list ascii) : option Z :=
  match s with
  | [] => Some 0
  | c :: t =>
      if Ascii.eqb c "e"%char || Ascii.eqb c "E"%char then
        let '(neg, t') :=
          match t with
          | "+"%char :: u => (false, u)
          | "-"%char :: u => (true, u)
          | _ => (false, t)
          end in
        match takeDigits 10 0 0 t' with
        | (v, n, []) => if 0 <? n then Some (if neg then - v else v) else None
        | _ => None
        end
      else None
  end.

(** StrUnsignedDecimalLiteral:
    [Infinity], [digits . digits? exp?], [. digits exp?], [digits exp?]. *)
Definition StrUnsignedDecimalLiteral (s : list ascii) : option number :=
  if chars_eqb s (list_ascii_of_string "Infinity") then Some (Infinity false)
  else
    let '(ip, ni, r1) := takeDigits 10 0 0 s in
    let '(m, nf, r2) :=
      match r1 with
      | "."%char :: t => takeDigits 10 ip 0 t
      | _ => (ip, 0, r1)
      end in
    if 0 <? ni + nf then
      match exponentPart r2 with
      | Some ex =>
          let k := ex - nf in
          Some (if 0 <=? k then roundToDouble (m * 10 ^ k) 1
                else roundToDouble m (Z.to_pos (10 ^ (- k))))
      | None => None
      end
    else None.

(** NonDecimalIntegerLiteral: [0x], [0o], [0b] (either case) and at least
    one digit of that base; no sign. *)
Definition NonDecimalIntegerLiteral (s : list ascii) : option number :=
  match s with
  | "0"%char :: c :: t =>
      let base :=
        if Ascii.eqb c "x"%char || Ascii.eqb c "X"%char then Some 16
        else if Ascii.eqb c "o"%char || Ascii.eqb c "O"%char then Some 8
        else if Ascii.eqb c "b"%char || Ascii.eqb c "B"%char then Some 2
        else None in
      match base with
      | Some b =>
          match takeDigits b 0 0 t with
          | (v, n, []) => if 0 <? n then Some (roundToDouble v 1) else None
          | _ => None
          end
      | None => None
      end
  | _ => None
  end.

Definition StrNumericLiteral (s : list ascii) : option number :=
  match NonDecimalIntegerLiteral s with
  | Some n => Some n
  | None =>
      match s with
      | "+"%char :: t => StrUnsignedDecimalLiteral t
      | "-"%char :: t => option_map negate (StrUnsignedDecimalLiteral t)
      | _ => StrUnsignedDecimalLiteral s
      end
  end.

(** [ToNumber] applied to a string: white space on both sides is dropped,
    the empty string is 0, a StrNumericLiteral is its rounded value, and
    anything else is NaN. *)
Definition StringToNumber (s : string) : number :=
  match trimChars (list_ascii_of_string s) with
  | [] => Finite 0
  | t => match StrNumericLiteral t with
         | Some n => n
         | None => NaN
         end
  end.


Local Open Scope string_scope.

(* ================================================================== *)
(** * JavaScript values *)
(* ================================================================== *)

(** A function supplied by the caller is known by a name; what it does
    when the module calls it is given by the host (see [behaviour]).
    [noop] is the module's own [function () {}]. *)
Inductive function : Type :=
| noop
| UserFunction (name : nat).

Inductive ErrorClass : Type := Error | TypeError | RangeError.

(** The values the module receives, stores and passes on.  An error object
    [new C(text + x)] keeps its constant text and the concatenated operand
    apart, so that no number has to be printed. *)
Inductive value : Type :=
| VUndefined
| VNull
| VBoolean (b : bool)
| VNumber (n : number)
| VString (s : string)
| VFunction (f : function)
| VError (name : ErrorClass) (text : string) (operands : list value)
| VBuffer (bytes : list byte)
| VUint8Array (bytes : list byte)
| VArray (elements : list value)
| VObject (properties : list (string * value)).

Definition typeof (v : value) : string :=
  match v with
  | VUndefined => "undefined"
  | VBoolean _ => "boolean"
  | VNumber _ => "number"
  | VString _ => "string"
  | VFunction _ => "function"
  | _ => "object"
  end.

(** Truthiness, as tested by [if (x)], [x && y] and [x || y]. *)
Definition ToBoolean (v : value) : bool :=
  match v with
  | VUndefined | VNull => false
  | VBoolean b => b
  | VNumber NaN => false
  | VNumber (Finite q) => negb (Qeq_bool q 0)
  | VNumber (Infinity _) => true
  | VString s => negb (String.eqb s EmptyString)
  | _ => true
  end.

(** The text of a Buffer ([buffer.toString()], UTF-8) as far as a
    conversion to a number can tell: ASCII bytes are the characters they
    encode; the encodings of the white space above U+007F (U+00A0, U+1680,
    U+2000 to U+200A, U+2028, U+2029, U+202F, U+205F, U+3000, U+FEFF)
    become U+00A0; every other byte, which belongs to a character that is
    neither white space nor part of a numeric literal, becomes U+00FF. *)
Definition white_space_3 (b1 b2 b3 : N) : bool :=
  ((b1 =? 225) && (b2 =? 154) && (b3 =? 128)
   || (b1 =? 226) && (b2 =? 128)
      && ((128 <=? b3) && (b3 <=? 138) || (b3 =? 168) || (b3 =? 169)
          || (b3 =? 175))
   || (b1 =? 226) && (b2 =? 129) && (b3 =? 159)
   || (b1 =? 227) && (b2 =? 128) && (b3 =? 128)
   || (b1 =? 239) && (b2 =? 187) && (b3 =? 191))%N.

(** The number of bytes that follow the first one in the encoding of a
    white space character at the head of [bs]; 0 if there is none. *)
Definition white_space_bytes (bs : list N) : nat :=
  match bs with
  | b1 :: b2 :: r =>
      if ((b1 =? 194) && (b2 =? 160))%N then 1%nat
      else match r with
           | b3 :: _ => if white_space_3 b1 b2 b3 then 2%nat else 0%nat
           | [] => 0%nat
           end
  | _ => 0%nat
  end.

(** [skip] counts the bytes still to pass over of a sequence already
    decoded. *)
Fixpoint numeric_text (skip : nat) (bs : list N) : list ascii :=
  match bs with
  | [] => []
  | b :: r =>
      match skip with
      | S k => numeric_text k r
      | O =>
          if (b <? 128)%N then ascii_of_N b :: numeric_text 0 r
          else match white_space_bytes bs with
               | O => ascii_of_N 255 :: numeric_text 0 r
               | k => ascii_of_N 160 :: numeric_text k r
               end
      end
  end.

Definition Buffer_text (bytes : list byte) : string :=
  string_of_list_ascii (numeric_text 0 (map Byte.to_N bytes)).

(** [Number(v)], [+v].  An object is converted through its [valueOf] and
    [toString]: an Array and a Uint8Array through [join], so that an
    empty one is 0, one with a single element is what the text of that
    element converts to, and a longer one, whose text has a comma, is NaN;
    a Buffer through its text; a function, an error object and a plain
    object through texts that are not numeric.  An element that is null
    or undefined is joined as the empty text, and the text of a number
    converts back to that number.  An object that carries a [valueOf] or
    [toString] of its own would have it called here; such objects are
    outside this function (see [plain]). *)
Fixpoint ToNumber (v : value) : number :=
  match v with
  | VUndefined => NaN
  | VNull => Finite 0
  | VBoolean b => if b then Finite 1 else Finite 0
  | VNumber n => n
  | VString s => StringToNumber s
  | VFunction _ | VError _ _ _ | VObject _ => NaN
  | VBuffer bytes => StringToNumber (Buffer_text bytes)
  | VUint8Array [] => Finite 0
  | VUint8Array [b] => Finite (inject_Z (Z.of_N (Byte.to_N b)))
  | VUint8Array _ => NaN
  | VArray [] => Finite 0
  | VArray [x] =>
      match x with
      | VUndefined | VNull => Finite 0
      | VBoolean _ => NaN
      | _ => ToNumber x
      end
  | VArray _ => NaN
  end.

Definition Buffer_isBuffer (v : value) : bool :=
  match v with VBuffer _ => true | _ => false end.

(** [v instanceof Uint8Array]; a Buffer is a Uint8Array. *)
Definition instanceof_Uint8Array (v : value) : bool :=
  match v with VUint8Array _ | VBuffer _ => true | _ => false end.

Definition Array_isArray (v : value) : bool :=
  match v with VArray _ => true | _ => false end.

(** How a call ends: with a result, or with a thrown value. *)
Inductive completion (A : Type) : Type :=
| Return (a : A)
| Throw (e : value).
Arguments Return {A} a.
Arguments Throw {A} e.

Fixpoint lookup_property (k : string) (ps : list (string * value)) : value :=
  match ps with
  | [] => VUndefined
  | (k', v) :: r => if String.eqb k k' then v else lookup_property k r
  end.

(** [v.k]: reading a property of undefined or null throws. *)
Definition get_property (v : value) (k : string) : completion value :=
  match v with
  | VUndefined | VNull =>
      Throw (VError TypeError "Cannot read property of " [v])
  | VObject ps => Return (lookup_property k ps)
  | _ => Return VUndefined
  end.

(* ================================================================== *)
(** * Module state, host state and the socket object *)
(* ================================================================== *)

Inductive STATE : Type := DISCONNECTED | CONNECTING | CONNECTED.

Definition STATE_eqb (a b : STATE) : bool :=
  match a, b with
  | DISCONNECTED, DISCONNECTED | CONNECTING, CONNECTING
  | CONNECTED, CONNECTED => true
  | _, _ => false
  end.

(** The [options] argument of [connect]. *)
Record ConnectOptions : Type := {
  host : value;
  port : value;
  localAddress : value;
  localPort : value;
  family : value
}.

(** A call received by [NativeModules.TcpSockets].  The callback of
    [write] is the closure built in [write]; it is identified by the [cb]
    it closes over and run by [write_callback].  The callbacks of [end]
    and [destroy] are [this._debug.bind(this, 'closed')]. *)
Inductive NativeCall : Type :=
| Sockets_createSocket (id : Z)
| Sockets_connect (id : Z) (host : value) (port : number)
                  (options : ConnectOptions)
| Sockets_write (id : Z) (str : string) (cb : value)
| Sockets_end (id : Z)
| Sockets_destroy (id : Z).

(** An EventEmitter registration: [on] or [once]. *)
Record listener : Type := {
  l_event : string;
  l_function : function;
  l_once : bool
}.

(** The one-shot registration that [once(event, g)] adds. *)
Definition one_shot (event : string) (g : function) : listener :=
  {| l_event := event; l_function := g; l_once := true |}.

Record World : Type := {
  (** [var usedIds = []], module level *)
  usedIds : list Z;
  (** how many random ids have been drawn *)
  random_drawn : nat;
  (** calls made to the native module, oldest first *)
  Sockets : list NativeCall;
  (** live DeviceEventEmitter subscriptions: key and socket id of the
      topic ['tcp-' + id + '-event'] *)
  DeviceEventEmitter : list (nat * Z);
  subscriptions_made : nat;
  (** armed timers: handle and delay; handles start at 1, so that a
      handle is truthy *)
  timers : list (nat * number);
  timers_made : nat;
  (** [console.log] lines: socket id of the ['socket-' + id] prefix, then
      the arguments *)
  console : list (Z * list value);
  (** [emit] calls, oldest first: socket id, event name, arguments *)
  emitted : list (Z * string * list value);
  (** caller-supplied functions called, with their arguments, oldest
      first *)
  called : list (function * list value)
}.

Record TcpSocket : Type := {
  _events : list listener;
  _id : Z;
  _state : STATE;
  readable : bool;
  writable : bool;
  _subscription : nat;
  _destroyed : bool;
  _timeout : option nat;
  _address : value;
  _port : value;
  _family : value
}.

Definition empty_World : World :=
  {| usedIds := []; random_drawn := 0; Sockets := [];
     DeviceEventEmitter := []; subscriptions_made := 0;
     timers := []; timers_made := 0; console := []; emitted := [];
     called := [] |}.

(** ** Field updates *)

Definition set_usedIds x (w : World) : World :=
  {| usedIds := x; random_drawn := random_drawn w; Sockets := Sockets w;
     DeviceEventEmitter := DeviceEventEmitter w;
     subscriptions_made := subscriptions_made w; timers := timers w;
     timers_made := timers_made w; console := console w;
     emitted := emitted w; called := called w |}.

Definition set_random_drawn x (w : World) : World :=
  {| usedIds := usedIds w; random_drawn := x; Sockets := Sockets w;
     DeviceEventEmitter := DeviceEventEmitter w;
     subscriptions_made := subscriptions_made w; timers := timers w;
     timers_made := timers_made w; console := console w;
     emitted := emitted w; called := called w |}.

Definition set_Sockets x (w : World) : World :=
  {| usedIds := usedIds w; random_drawn := random_drawn w; Sockets := x;
     DeviceEventEmitter := DeviceEventEmitter w;
     subscriptions_made := subscriptions_made w; timers := timers w;
     timers_made := timers_made w; console := console w;
     emitted := emitted w; called := called w |}.

Definition set_DeviceEventEmitter x n (w : World) : World :=
  {| usedIds := usedIds w; random_drawn := random_drawn w;
     Sockets := Sockets w; DeviceEventEmitter := x;
     subscriptions_made := n; timers := timers w;
     timers_made := timers_made w; console := console w;
     emitted := emitted w; called := called w |}.

Definition set_timers x n (w : World) : World :=
  {| usedIds := usedIds w; random_drawn := random_drawn w;
     Sockets := Sockets w; DeviceEventEmitter := DeviceEventEmitter w;
     subscriptions_made := subscriptions_made w; timers := x;
     timers_made := n; console := console w; emitted := emitted w;
     called := called w |}.

Definition set_console x (w : World) : World :=
  {| usedIds := usedIds w; random_drawn := random_drawn w;
     Sockets := Sockets w; DeviceEventEmitter := DeviceEventEmitter w;
     subscriptions_made := subscriptions_made w; timers := timers w;
     timers_made := timers_made w; console := x; emitted := emitted w;
     called := called w |}.

Definition set_emitted x (w : World) : World :=
  {| usedIds := usedIds w; random_drawn := random_drawn w;
     Sockets := Sockets w; DeviceEventEmitter := DeviceEventEmitter w;
     subscriptions_made := subscriptions_made w; timers := timers w;
     timers_made := timers_made w; console := console w; emitted := x;
     called := called w |}.

Definition set_called x (w : World) : World :=
  {| usedIds := usedIds w; random_drawn := random_drawn w;
     Sockets := Sockets w; DeviceEventEmitter := DeviceEventEmitter w;
     subscriptions_made := subscriptions_made w; timers := timers w;
     timers_made := timers_made w; console := console w;
     emitted := emitted w; called := x |}.

Definition set__events x (s : TcpSocket) : TcpSocket :=
  {| _events := x; _id := _id s; _state := _state s;
     readable := readable s; writable := writable s;
     _subscription := _subscription s; _destroyed := _destroyed s;
     _timeout := _timeout s; _address := _address s; _port := _port s;
     _family := _family s |}.

Definition set__state x (s : TcpSocket) : TcpSocket :=
  {| _events := _events s; _id := _id s; _state := x;
     readable := readable s; writable := writable s;
     _subscription := _subscription s; _destroyed := _destroyed s;
     _timeout := _timeout s; _address := _address s; _port := _port s;
     _family := _family s |}.

Definition set_readable x (s : TcpSocket) : TcpSocket :=
  {| _events := _events s; _id := _id s; _state := _state s;
     readable := x; writable := writable s;
     _subscription := _subscription s; _destroyed := _destroyed s;
     _timeout := _timeout s; _address := _address s; _port := _port s;
     _family := _family s |}.

Definition set_writable x (s : TcpSocket) : TcpSocket :=
  {| _events := _events s; _id := _id s; _state := _state s;
     readable := readable s; writable := x;
     _subscription := _subscription s; _destroyed := _destroyed s;
     _timeout := _timeout s; _address := _address s; _port := _port s;
     _family := _family s |}.

Definition set__destroyed x (s : TcpSocket) : TcpSocket :=
  {| _events := _events s; _id := _id s; _state := _state s;
     readable := readable s; writable := writable s;
     _subscription := _subscription s; _destroyed := x;
     _timeout := _timeout s; _address := _address s; _port := _port s;
     _family := _family s |}.

Definition set__timeout x (s : TcpSocket) : TcpSocket :=
  {| _events := _events s; _id := _id s; _state := _state s;
     readable := readable s; writable := writable s;
     _subscription := _subscription s; _destroyed := _destroyed s;
     _timeout := x; _address := _address s; _port := _port s;
     _family := _family s |}.

Definition set_remote a p f (s : TcpSocket) : TcpSocket :=
  {| _events := _events s; _id := _id s; _state := _state s;
     readable := readable s; writable := writable s;
     _subscription := _subscription s; _destroyed := _destroyed s;
     _timeout := _timeout s; _address := a; _port := p; _family := f |}.

(* ================================================================== *)
(** * What the caller's functions do *)
(* ================================================================== *)

(** A callback or listener is the caller's code.  As far as this module
    is concerned, a call of it is a sequence of calls on the socket it
    was given to (its methods, and [on] and [once] of the EventEmitter it
    inherits from), after which the function returns or throws.  What a
    method throws inside the function is caught there, or is what the
    function throws.  The module never uses what the function returns. *)
Inductive request : Type :=
| request_connect (options : ConnectOptions) (callback : value)
| request_write (buffer callback : value)
| request_end (data encoding : value)
| request_destroy
| request_setTimeout (msecs : number) (callback : value)
| request_address
| request_on (event : string) (listener : value)
| request_once (event : string) (listener : value).

Record script : Type := {
  requests : list request;
  (** the value thrown in the end, if any *)
  thrown : option value
}.

(** A function that does nothing to the socket and returns. *)
Definition silent : script := {| requests := []; thrown := None |}.

(* ================================================================== *)
(** * The host: what the module requires from outside *)
(* ================================================================== *)

(** The libraries and globals TcpSocket.js is linked against.  None of
    them is part of the module, so each is an operation of the host. *)
Class Host : Type := {
  (** the [__DEV__] global *)
  __DEV__ : bool;
  (** [typeof Buffer !== 'undefined'] *)
  Buffer_defined : bool;
  (** the k-th evaluation of [Math.floor((Math.random() * 1000) + 1)] *)
  random_id : nat -> Z;
  random_id_range : forall k, 1 <= random_id k <= 1000;
  (** [ipRegex({exact: true}).test(x)] *)
  ipRegex_exact_test : value -> bool;
  (** [Base64Str.encode(s)] *)
  Base64Str_encode : string -> string;
  (** [buffer.toString('base64')] *)
  Buffer_toString_base64 : value -> string;
  (** [base64.fromByteArray(x)] *)
  base64_fromByteArray : value -> string;
  (** [base64.toByteArray(x)] *)
  base64_toByteArray : value -> completion value;
  (** [new global.Buffer(x, 'base64')] *)
  Buffer_from_base64 : value -> completion value;
  (** what the caller's function [name] does when the module calls it
      with [args]; it may look at the socket and at the host *)
  behaviour : nat -> list value -> TcpSocket -> World -> script
}.

(* ================================================================== *)
(** * The monad of method bodies *)
(* ================================================================== *)

(** A method runs on [this] and the world and ends with a completion.
    The state reached is returned in both cases: what a method did before
    it threw is not undone. *)
Definition M (A : Type) : Type :=
  TcpSocket -> World -> completion A * TcpSocket * World.

Definition ret {A} (a : A) : M A := fun s w => (Return a, s, w).

Definition throw {A} (e : value) : M A := fun s w => (Throw e, s, w).

Definition bind {A B} (m : M A) (k : A -> M B) : M B :=
  fun s w =>
    match m s w with
    | (Return a, s', w') => k a s' w'
    | (Throw e, s', w') => (Throw e, s', w')
    end.

Declare Scope js_scope.
Delimit Scope js_scope with js.
Notation "x <- m ;; k" := (bind m (fun x => k))
  (at level 61, m at next level, right associativity) : js_scope.
Notation "m ;; k" := (bind m (fun _ => k))
  (at level 61, right associativity) : js_scope.
Local Open Scope js_scope.

Definition this : M TcpSocket := fun s w => (Return s, s, w).
Definition world : M World := fun s w => (Return w, s, w).
Definition update_this (f : TcpSocket -> TcpSocket) : M unit :=
  fun s w => (Return tt, f s, w).
Definition update_world (f : World -> World) : M unit :=
  fun s w => (Return tt, s, f w).
Definition lift {A} (c : completion A) : M A := fun s w => (c, s, w).

(** The three components of a run. *)
Definition outcome {A} (r : completion A * TcpSocket * World) : completion A :=
  fst (fst r).
Definition socket_of {A} (r : completion A * TcpSocket * World) : TcpSocket :=
  snd (fst r).
Definition world_of {A} (r : completion A * TcpSocket * World) : World :=
  snd r.

(** A word between double quotes, as error messages spell option names. *)
Definition quoted (s : string) : string :=
  String (ascii_of_nat 34) (s ++ String (ascii_of_nat 34) EmptyString).

(** [new C(text + x)] *)
Definition new_Error (c : ErrorClass) (text : string) (xs : list value) : value :=
  VError c text xs.

(* ================================================================== *)
(** * Host facilities used by the methods *)
(* ================================================================== *)

Section Methods.

Context {H : Host}.

(** A call on [NativeModules.TcpSockets]. *)
Definition sent (c : NativeCall) (w : World) : World :=
  set_Sockets (Sockets w ++ [c]) w.

Definition native (c : NativeCall) : M unit := update_world (sent c).

(** [DeviceEventEmitter.addListener('tcp-' + id + '-event', handler)] *)
Definition addListener (id : Z) (w : World) : nat * World :=
  let key := S (subscriptions_made w) in
  (key, set_DeviceEventEmitter (DeviceEventEmitter w ++ [(key, id)]) key w).

(** [subscription.remove()] *)
Definition unsubscribed (key : nat) (w : World) : World :=
  set_DeviceEventEmitter
    (filter (fun e => negb (Nat.eqb (fst e) key)) (DeviceEventEmitter w))
    (subscriptions_made w) w.

Definition subscription_remove (key : nat) : M unit :=
  update_world (unsubscribed key).

Definition subscribed (key : nat) (id : Z) (w : World) : bool :=
  existsb (fun e => Nat.eqb (fst e) key && Z.eqb (snd e) id)
          (DeviceEventEmitter w).

(** The global [setTimeout(f, msecs)]: arms a timer, returns its handle. *)
Definition global_setTimeout (msecs : number) : M nat :=
  fun s w =>
    let t := S (timers_made w) in
    (Return t, s, set_timers (timers w ++ [(t, msecs)]) t w).

(** The global [clearTimeout(t)]. *)
Definition disarmed (t : nat) (w : World) : World :=
  set_timers (filter (fun e => negb (Nat.eqb (fst e) t)) (timers w))
             (timers_made w) w.

Definition clearTimeout (t : nat) : M unit := update_world (disarmed t).

Definition armed (t : nat) (w : World) : bool :=
  existsb (fun e => Nat.eqb (fst e) t) (timers w).

(** ** EventEmitter *)

(** The registrations of a socket are kept in order in [_events].  The
    events EventEmitter emits about itself (['newListener'],
    ['removeListener']) are left out. *)

(** [this.once(event, listener)] *)
Definition once (event : string) (f : value) : M unit :=
  match f with
  | VFunction g =>
      update_this (fun s => set__events (_events s ++ [one_shot event g]) s)
  | _ => throw (new_Error TypeError "listener must be a function" [])
  end.

(** [this.on(event, listener)] *)
Definition on (event : string) (f : value) : M unit :=
  match f with
  | VFunction g =>
      update_this (fun s =>
        set__events
          (_events s ++ [{| l_event := event; l_function := g;
                            l_once := false |}]) s)
  | _ => throw (new_Error TypeError "listener must be a function" [])
  end.

Definition listens (event : string) (l : listener) : bool :=
  String.eqb (l_event l) event.

(* ================================================================== *)
(** * TcpSocket.js *)
(* ================================================================== *)

(** [usedIds.indexOf(x)] *)
Fixpoint indexOf (l : list Z) (x : Z) : Z :=
  match l with
  | [] => -1
  | y :: r =>
      if Z.eqb y x then 0
      else let i := indexOf r x in if Z.eqb i (-1) then -1 else i + 1
  end.

(** The draw and the [while] loop of the constructor:
    [this._id = draw; while (usedIds.indexOf(this._id) !== -1) this._id = draw].
    [fuel] bounds the number of draws; [None] is a loop still running
    when the fuel is spent.  The result is the id and the number of draws
    consumed so far. *)
Fixpoint allocate (fuel : nat) (used : list Z) (drawn : nat) : option (Z * nat) :=
  match fuel with
  | O => None
  | S fuel' =>
      let id := random_id drawn in
      if negb (Z.eqb (indexOf used id) (-1))
      then allocate fuel' used (S drawn)
      else Some (id, S drawn)
  end.

(** [function TcpSocket(options: ?{ id: ?number })].  [options] is [None]
    when absent; its [id] is an integer or absent. *)
Definition new_TcpSocket (fuel : nat) (options : option (option Z)) (w : World)
  : option (TcpSocket * World) :=
  let nativeId :=
    match options with
    | Some (Some id) => if Z.eqb id 0 then None else Some id
    | _ => None
    end in
  let chosen :=
    match nativeId with
    | Some id => Some (id, random_drawn w)
    | None => allocate fuel (usedIds w) (random_drawn w)
    end in
  match chosen with
  | None => None
  | Some (id, drawn) =>
      let w1 := set_random_drawn drawn w in
      let w2 := set_usedIds (usedIds w1 ++ [id]) w1 in
      let '(key, w3) := addListener id w2 in
      let s :=
        {| _events := []; _id := id;
           _state := match nativeId with
                     | Some _ => CONNECTED
                     | None => DISCONNECTED
                     end;
           readable := false; writable := false;
           _subscription := key; _destroyed := false; _timeout := None;
           _address := VUndefined; _port := VUndefined;
           _family := VUndefined |} in
      let w4 :=
        match nativeId with
        | Some _ => w3
        | None => set_Sockets (Sockets w3 ++ [Sockets_createSocket id]) w3
        end in
      Some (s, w4)
  end.

(** [console.log('socket-' + id, args...)] *)
Definition logged (id : Z) (args : list value) (w : World) : World :=
  set_console (console w ++ [(id, args)]) w.

(** [TcpSocket.prototype._debug] *)
Definition _debug (args : list value) : M unit :=
  if __DEV__ then
    s <- this ;;
    update_world (logged (_id s) args)
  else ret tt.

(** [function isLegalPort(port)] *)
Definition isLegalPort (port : value) : bool :=
  if String.eqb (typeof port) "string"
     && match port with
        | VString p => String.eqb (trim p) EmptyString
        | _ => false
        end
  then false
  else
    number_strict_eq (ToNumber port) (ofZ (ToUint32 (ToNumber port)))
    && number_ge (ToNumber port) (ofZ 0)
    && number_le (ToNumber port) (ofZ 65535).

Definition port_TypeError (port : value) : value :=
  new_Error TypeError
    (quoted "port" ++ " option should be a number or string: ") [port].

Definition port_RangeError (port : value) : value :=
  new_Error RangeError
    (quoted "port" ++ " option should be >= 0 and < 65536: ") [port].

(** The block [if (typeof port !== 'undefined') { ... }] of [connect]. *)
Definition check_port (port : value) : M unit :=
  if negb (String.eqb (typeof port) "undefined") then
    if negb (String.eqb (typeof port) "number")
       && negb (String.eqb (typeof port) "string")
    then throw (port_TypeError port)
    else if negb (isLegalPort port)
    then throw (port_RangeError port)
    else ret tt
  else ret tt.

(** [TcpSocket.prototype.connect] *)
Definition connect (options : ConnectOptions) (callback : value) : M unit :=
  s <- this ;;
  if negb (STATE_eqb (_state s) DISCONNECTED)
  then throw (new_Error Error "Socket is already bound" [])
  else
    (if String.eqb (typeof callback) "function"
     then once "connect" callback else ret tt) ;;
    let host := if ToBoolean (host options)
                then host options else VString "localhost" in
    let port := port options in
    let localAddress := localAddress options in
    let localPort := localPort options in
    if ToBoolean localAddress && negb (ipRegex_exact_test localAddress)
    then throw (new_Error TypeError
                  (quoted "localAddress" ++ " option must be a valid IP: ")
                  [localAddress])
    else if ToBoolean localPort
            && negb (String.eqb (typeof localPort) "number")
    then throw (new_Error TypeError
                  (quoted "localPort" ++ " option should be a number: ")
                  [localPort])
    else
      check_port port ;;
      (* port |= port *)
      let port := VNumber (ofZ (Z.lor (ToInt32 (ToNumber port))
                                      (ToInt32 (ToNumber port)))) in
      update_this (set__state CONNECTING) ;;
      _debug [VString "connecting, host:"; host; VString "port:"; port] ;;
      native (Sockets_connect (_id s) host (ToNumber port) options).

(** [TcpSocket.prototype.destroy] *)
Definition destroy : M unit :=
  s <- this ;;
  if negb (_destroyed s) then
    update_this (set__destroyed true) ;;
    _debug [VString "destroying"] ;;
    subscription_remove (_subscription s) ;;
    native (Sockets_destroy (_id s))
  else ret tt.

(** [TcpSocket.prototype.setTimeout] *)
Definition setTimeout (msecs : number) (callback : value) : M unit :=
  s <- this ;;
  match _timeout s with
  | Some t => clearTimeout t ;; update_this (set__timeout None)
  | None => ret tt
  end ;;
  if number_gt msecs (ofZ 0) then
    (if ToBoolean callback then once "timeout" callback else ret tt) ;;
    t <- global_setTimeout msecs ;;
    update_this (set__timeout (Some t))
  else ret tt.

(** [TcpSocket.prototype.address] *)
Definition address : M value :=
  s <- this ;;
  ret (VObject [("port", _port s); ("address", _address s);
                ("family", _family s)]).

(** [function normalizeError(err)] *)
Definition normalizeError (err : value) : value :=
  if ToBoolean err then
    match err with
    | VString m => new_Error Error m []
    | _ => err
    end
  else VUndefined.

(** [TcpSocket.prototype.write] *)
Definition write (buffer : value) (callback : value) : M bool :=
  s <- this ;;
  if STATE_eqb (_state s) DISCONNECTED
  then throw (new_Error Error "Socket is not connected." [])
  else
    let cb := if ToBoolean callback then callback else VFunction noop in
    str <-
      match buffer with
      | VString text =>
          _debug [VString "socket.WRITE(): encoding as base64"] ;;
          ret (Base64Str_encode text)
      | _ =>
          if Buffer_defined && Buffer_isBuffer buffer
          then ret (Buffer_toString_base64 buffer)
          else if instanceof_Uint8Array buffer || Array_isArray buffer
          then ret (base64_fromByteArray buffer)
          else throw (new_Error Error "invalid message format" [])
      end ;;
    native (Sockets_write (_id s) str cb) ;;
    ret true.

(** [TcpSocket.prototype.end] *)
Definition end_ (data : value) (encoding : value) : M unit :=
  s <- this ;;
  if _destroyed s then ret tt
  else
    (if ToBoolean data then write data encoding ;; ret tt else ret tt) ;;
    update_this (set__destroyed true) ;;
    _debug [VString "closing"] ;;
    s' <- this ;;
    subscription_remove (_subscription s') ;;
    native (Sockets_end (_id s')).

(* ================================================================== *)
(** * Calls of the caller's functions *)
(* ================================================================== *)

(** One call made by a caller's function. *)
Definition serve (q : request) : M unit :=
  match q with
  | request_connect o cb => connect o cb
  | request_write b cb => write b cb ;; ret tt
  | request_end d e => end_ d e
  | request_destroy => destroy
  | request_setTimeout ms cb => setTimeout ms cb
  | request_address => address ;; ret tt
  | request_on ev f => on ev f
  | request_once ev f => once ev f
  end.

(** [try { m } catch (e) {}]: what [m] did stays done. *)
Definition caught {A} (m : M A) : M unit :=
  fun s w => let r := m s w in (Return tt, socket_of r, world_of r).

Fixpoint play (qs : list request) : M unit :=
  match qs with
  | [] => ret tt
  | q :: r => caught (serve q) ;; play r
  end.

(** The body of function [g] run on [args]. *)
Definition invoke (g : function) (args : list value) : M unit :=
  match g with
  | noop => ret tt
  | UserFunction name =>
      s <- this ;;
      w <- world ;;
      let b := behaviour name args s w in
      play (requests b) ;;
      match thrown b with
      | Some e => throw e
      | None => ret tt
      end
  end.

(** Calling a value: a function is called (the call is recorded in
    [called]) and what it throws is thrown by the call; anything else is
    a TypeError. *)
Definition call (f : value) (args : list value) : M unit :=
  match f with
  | VFunction g =>
      update_world (fun w => set_called (called w ++ [(g, args)]) w) ;;
      invoke g args
  | _ => throw (new_Error TypeError "is not a function: " [f])
  end.

Definition function_eqb (f g : function) : bool :=
  match f, g with
  | noop, noop => true
  | UserFunction n, UserFunction m => Nat.eqb n m
  | _, _ => false
  end.

Definition listener_eqb (a b : listener) : bool :=
  String.eqb (l_event a) (l_event b)
  && function_eqb (l_function a) (l_function b)
  && Bool.eqb (l_once a) (l_once b).

(** [removeListener] of one registration: the first one equal to [l].
    (Equal registrations cannot be told apart, and the listeners called
    by [emit] are taken in order.) *)
Fixpoint remove_first (l : listener) (ls : list listener) : list listener :=
  match ls with
  | [] => []
  | x :: r => if listener_eqb x l then r else x :: remove_first l r
  end.

(** The loop of [emit] over the listeners it found: each is called in
    turn; a one-shot one is taken off the list just before it is called;
    a listener that throws ends the loop. *)
Fixpoint call_listeners (ls : list listener) (args : list value) : M unit :=
  match ls with
  | [] => ret tt
  | l :: r =>
      (if l_once l
       then update_this (fun s => set__events (remove_first l (_events s)) s)
       else ret tt) ;;
      call (VFunction (l_function l)) args ;;
      call_listeners r args
  end.

(** [this.emit(event, args...)]: the listeners registered for [event]
    when [emit] starts are called in registration order.  An ['error']
    nobody listens to is thrown: the error object itself, or an Error
    that wraps what was emitted (its text varies with the version of the
    events module).  Returns whether anybody listened.  The call itself
    is recorded in [emitted]. *)
Definition emit (event : string) (args : list value) : M bool :=
  s <- this ;;
  update_world (fun w =>
    set_emitted (emitted w ++ [(_id s, event, args)]) w) ;;
  let ls := filter (listens event) (_events s) in
  match ls with
  | [] =>
      if String.eqb event "error" then
        match hd VUndefined args with
        | VError c text xs => throw (VError c text xs)
        | er => throw (new_Error Error
                         ("Uncaught, unspecified " ++ quoted "error"
                          ++ " event.") [er])
        end
      else ret false
  | _ => call_listeners ls args ;; ret true
  end.

(* ================================================================== *)
(** * TcpSocket.js: the functions the host calls back *)
(* ================================================================== *)

(** The function armed by [setTimeout]:
    [self.emit('timeout'); self._timeout = null; self.destroy()]. *)
Definition timeout_callback : M unit :=
  emit "timeout" [] ;;
  update_this (set__timeout None) ;;
  destroy.

(** The closure [function (err) { ... }] that [write] hands to
    [Sockets.write]; [cb] is the variable it closes over. *)
Definition write_callback (cb : value) (err : value) : M unit :=
  s <- this ;;
  match _timeout s with
  | Some t => clearTimeout t ;; update_this (set__timeout None)
  | None => ret tt
  end ;;
  let err := normalizeError err in
  if ToBoolean err then
    _debug [VString "write failed"; err] ;;
    call cb [err]
  else call cb [].

(** The argument of [_onEvent]. *)
Record info : Type := { event : string; data : value }.

(** [TcpSocket.prototype._onEvent] *)
Definition _onEvent (i : info) : M bool :=
  _debug [VString "received"; VString (event i)] ;;
  data' <-
    (if String.eqb (event i) "connect" then
       update_this (fun s => set_writable true (set_readable true s)) ;;
       update_this (set__state CONNECTED) ;;
       a <- lift (get_property (data i) "address") ;;
       update_this (fun s => set_remote a (_port s) (_family s) s) ;;
       p <- lift (get_property (data i) "port") ;;
       update_this (fun s =>
         set_remote (_address s) (VNumber (ToNumber p)) (_family s) s) ;;
       f <- lift (get_property (data i) "family") ;;
       update_this (fun s => set_remote (_address s) (_port s) f s) ;;
       ret (data i)
     else if String.eqb (event i) "data" then
       s <- this ;;
       match _timeout s with
       | Some t => clearTimeout t ;; update_this (set__timeout None)
       | None => ret tt
       end ;;
       lift (if negb Buffer_defined
             then base64_toByteArray (data i)
             else Buffer_from_base64 (data i))
     else if String.eqb (event i) "close" then
       update_this (set__state DISCONNECTED) ;;
       ret (data i)
     else ret (data i)) ;;
  emit (event i) [data'].

(* ================================================================== *)
(** * What the host does to a socket *)
(* ================================================================== *)

(** The native side posts an event on the topic of socket [id]; the
    bound [_onEvent] runs if the subscription of [this] is on that topic
    and still registered. *)
Definition deliver (id : Z) (i : info) : M bool :=
  s <- this ;;
  w <- world ;;
  if subscribed (_subscription s) id w then _onEvent i else ret false.

(** Timer [t] comes due: an armed timer is consumed and its function
    runs; a timer that was cleared does nothing. *)
Definition expire (t : nat) : M unit :=
  w <- world ;;
  if armed t w then clearTimeout t ;; timeout_callback else ret tt.

End Methods.

(** Everything that can happen to a socket once it is constructed: the
    calls of its owner and the calls of the host. *)
Inductive action : Type :=
| call_connect (options : ConnectOptions) (callback : value)
| call_write (buffer callback : value)
| call_end (data encoding : value)
| call_destroy
| call_setTimeout (msecs : number) (callback : value)
| call_address
| native_event (id : Z) (i : info)
| timer_due (t : nat)
| write_acknowledged (cb err : value).

Section Runs.

Context {H : Host}.

Definition forget {A} (m : M A) (s : TcpSocket) (w : World) : TcpSocket * World :=
  let r := m s w in (socket_of r, world_of r).

(** One action; a thrown value is dropped, the state it left is kept. *)
Definition perform (a : action) (sw : TcpSocket * World) : TcpSocket * World :=
  let '(s, w) := sw in
  match a with
  | call_connect o cb => forget (connect o cb) s w
  | call_write b cb => forget (write b cb) s w
  | call_end d e => forget (end_ d e) s w
  | call_destroy => forget destroy s w
  | call_setTimeout ms cb => forget (setTimeout ms cb) s w
  | call_address => forget address s w
  | native_event id i => forget (deliver id i) s w
  | timer_due t => forget (expire t) s w
  | write_acknowledged cb err => forget (write_callback cb err) s w
  end.

Definition run (l : list action) (sw : TcpSocket * World) : TcpSocket * World :=
  fold_left (fun acc a => perform a acc) l sw.

End Runs.

(* ================================================================== *)
(** * Vocabulary of the specification *)
(* ================================================================== *)

Section Vocabulary.

Context {H : Host}.

(** The payloads [write] is specified to accept: a text string, a byte
    buffer (Buffer), an array-like of byte values (Uint8Array or Array). *)
Definition encodable (v : value) : bool :=
  match v with
  | VString _ | VBuffer _ | VUint8Array _ | VArray _ => true
  | _ => false
  end.

(** The wire encoding of an accepted payload. *)
Definition wire_encoded (v : value) : string :=
  match v with
  | VString text => Base64Str_encode text
  | VBuffer _ =>
      if Buffer_defined then Buffer_toString_base64 v
      else base64_fromByteArray v
  | _ => base64_fromByteArray v
  end.

(** The world after [this._debug(args)]. *)
Definition debugged (args : list value) (s : TcpSocket) (w : World) : World :=
  if __DEV__ then logged (_id s) args w else w.

(** The world after [write] has logged what it logs for this payload. *)
Definition write_logged (v : value) (s : TcpSocket) (w : World) : World :=
  match v with
  | VString _ => debugged [VString "socket.WRITE(): encoding as base64"] s w
  | _ => w
  end.

(** The callback [write] passes on: the caller's, or [noop]. *)
Definition callback_or_noop (callback : value) : value :=
  if ToBoolean callback then callback else VFunction noop.

(** "Empty": nothing but white space. *)
Definition blank (v : value) : bool :=
  match v with
  | VString t => String.eqb (trim t) EmptyString
  | _ => false
  end.

(** "Coerces to a non-negative integer <= 65535". *)
Definition coerces_to_port (v : value) : Prop :=
  exists (k : Z) (q : Q),
    0 <= k <= 65535 /\ ToNumber v = Finite q /\ Qeq q (inject_Z k).

(** The [localAddress] and [localPort] options pass their checks. *)
Definition local_options_pass (o : ConnectOptions) : bool :=
  negb (ToBoolean (localAddress o) && negb (ipRegex_exact_test (localAddress o)))
  && negb (ToBoolean (localPort o)
           && negb (String.eqb (typeof (localPort o)) "number")).

Definition is_connect_event (a : action) : bool :=
  match a with
  | native_event _ i => String.eqb (event i) "connect"
  | _ => false
  end.

(** Timer handles come from the global [setTimeout]: neither an armed
    timer nor the handle kept in [_timeout] is above the number of timers
    made. *)
Definition timers_wf (s : TcpSocket) (w : World) : Prop :=
  (forall e, In e (timers w) -> (fst e <= timers_made w)%nat)
  /\ (forall t, _timeout s = Some t -> (t <= timers_made w)%nat).

(** A relation between the state before and the state after. *)
Definition change : Type := TcpSocket -> World -> TcpSocket -> World -> Prop.

(** Every run of [m] changes the state within [R]. *)
Definition within (R : change) {A} (m : M A) : Prop :=
  forall s w, R s w (socket_of (m s w)) (world_of (m s w)).

(** What no method undoes: the ids in use and the draws made stay, the
    id and subscription of the handle stay, and [_destroyed], [readable]
    and [writable] stay true once true. *)
Definition evolves : change := fun s w s' w' =>
  usedIds w' = usedIds w
  /\ random_drawn w' = random_drawn w
  /\ _id s' = _id s
  /\ _subscription s' = _subscription s
  /\ (_destroyed s = true -> _destroyed s' = true)
  /\ (readable s = true -> readable s' = true)
  /\ (writable s = true -> writable s' = true).

(** [readable], [writable] are left as they are. *)
Definition keeps_flags : change := fun s w s' w' =>
  readable s' = readable s /\ writable s' = writable s.

(** Timer handles are not reused: an armed timer, and the handle kept in
    [_timeout], is one from before or one made since. *)
Definition timers_advance : change := fun s w s' w' =>
  (timers_made w <= timers_made w')%nat
  /\ (forall e, In e (timers w') ->
                In e (timers w)
                \/ (timers_made w < fst e <= timers_made w')%nat)
  /\ (forall t, _timeout s' = Some t ->
                _timeout s = Some t
                \/ (timers_made w < t <= timers_made w')%nat).

(** The first step of [setTimeout] and of a [data] event: an existing
    timer is cleared and forgotten. *)
Definition cleared (s : TcpSocket) (w : World) : TcpSocket * World :=
  match _timeout s with
  | Some t => (set__timeout None s, disarmed t w)
  | None => (s, w)
  end.

(** The world after the global [setTimeout(f, msecs)]. *)
Definition arming (msecs : number) (w : World) : World :=
  set_timers (timers w ++ [(S (timers_made w), msecs)]) (S (timers_made w)) w.

(** The steps of [end] after the optional write. *)
Definition ended (s : TcpSocket) (w : World) : TcpSocket * World :=
  (set__destroyed true s,
   sent (Sockets_end (_id s))
     (unsubscribed (_subscription s) (debugged [VString "closing"] s w))).

(** The listeners that a supplied callback adds: one if it is a function. *)
Definition registered (event : string) (callback : value) : list listener :=
  match callback with
  | VFunction g => [one_shot event g]
  | _ => []
  end.

(** A caller's function that does nothing to the socket and returns,
    whenever it is called. *)
Definition quiet (g : function) : Prop :=
  match g with
  | noop => True
  | UserFunction name => forall args s w, behaviour name args s w = silent
  end.

(** The ids 1..1000 are all in use. *)
Definition exhausted (used : list Z) : Prop :=
  forall id, 1 <= id <= 1000 -> In id used.

End Vocabulary.

(* ================================================================== *)
(** * A host to run examples on *)
(* ================================================================== *)

(** A concrete host: standard base64 for the three encoders and the two
    decoders, a dotted-quad test for the IP pattern (IPv4 only), and the
    random ids 1, 2, 3, ... in turn.  Of the caller's functions, number 13
    throws, and every other one returns without touching the socket. *)
Module ReferenceHost.

Definition alphabet : string :=
  "ABCDEFGHIJKLMNOPQRSTUVWXYZabcdefghijklmnopqrstuvwxyz0123456789+/".

Definition sextet_char (n : N) : ascii :=
  match String.get (N.to_nat n) alphabet with
  | Some c => c
  | None => "="%char
  end.

Fixpoint encode (l : list N) : string :=
  match l with
  | a :: b :: c :: r =>
      let n := (a * 65536 + b * 256 + c)%N in
      String (sextet_char (n / 262144))
        (String (sextet_char ((n / 4096) mod 64))
           (String (sextet_char ((n / 64) mod 64))
              (String (sextet_char (n mod 64)) (encode r))))
  | [a; b] =>
      let n := (a * 65536 + b * 256)%N in
      String (sextet_char (n / 262144))
        (String (sextet_char ((n / 4096) mod 64))
           (String (sextet_char ((n / 64) mod 64)) "="))
  | [a] =>
      let n := (a * 65536)%N in
      String (sextet_char (n / 262144))
        (String (sextet_char ((n / 4096) mod 64)) "==")
  | [] => EmptyString
  end.

(** UTF-8 of a string of code units below 256. *)
Definition utf8 (s : string) : list N :=
  flat_map (fun c =>
    let n := N_of_ascii c in
    if (n <? 128)%N then [n]
    else [(192 + n / 64)%N; (128 + n mod 64)%N])
    (list_ascii_of_string s).

Fixpoint char_sextet (c : ascii) (alpha : list ascii) (i : N) : option N :=
  match alpha with
  | [] => None
  | a :: r => if Ascii.eqb a c then Some i else char_sextet c r (i + 1)%N
  end.

Fixpoint sextets (s : list ascii) : list N :=
  match s with
  | [] => []
  | c :: r =>
      match char_sextet c (list_ascii_of_string alphabet) 0%N with
      | Some n => n :: sextets r
      | None => sextets r
      end
  end.

Definition to_byte (n : N) : byte :=
  match Byte.of_N (n mod 256) with Some b => b | None => x00 end.

Fixpoint decode (l : list N) : list byte :=
  match l with
  | a :: b :: c :: d :: r =>
      let n := (a * 262144 + b * 4096 + c * 64 + d)%N in
      to_byte (n / 65536) :: to_byte (n / 256) :: to_byte n :: decode r
  | [a; b; c] =>
      let n := (a * 262144 + b * 4096 + c * 64)%N in
      [to_byte (n / 65536); to_byte (n / 256)]
  | [a; b] =>
      let n := (a * 262144 + b * 4096)%N in
      [to_byte (n / 65536)]
  | _ => []
  end.

Definition bytes_of (v : value) : list N :=
  match v with
  | VBuffer bs | VUint8Array bs => map Byte.to_N bs
  | VArray vs => map (fun x => Z.to_N (ToUint32 (ToNumber x) mod 256)) vs
  | _ => []
  end.

Definition toByteArray (v : value) : completion value :=
  match v with
  | VString s =>
      if Nat.eqb (Nat.modulo (String.length s) 4) 0
      then Return (VUint8Array (decode (sextets (list_ascii_of_string s))))
      else Throw (new_Error Error
                    "Invalid string. Length must be a multiple of 4" [])
  | _ => Throw (new_Error TypeError "not a base64 string: " [v])
  end.

Definition new_Buffer (v : value) : completion value :=
  match v with
  | VString s => Return (VBuffer (decode (sextets (list_ascii_of_string s))))
  | _ => Throw (new_Error TypeError "must start with a string: " [v])
  end.

Fixpoint split_dots (s cur : list ascii) : list (list ascii) :=
  match s with
  | [] => [rev cur]
  | c :: r =>
      if Ascii.eqb c "."%char then rev cur :: split_dots r []
      else split_dots r (c :: cur)
  end.

Definition octet (p : list ascii) : bool :=
  match takeDigits 10 0 0 p with
  | (v, n, []) =>
      ((1 <=? n)%Z && (n <=? 3)%Z && (v <=? 255)%Z)
      && ((n =? 1)%Z || negb (chars_eqb (firstn 1 p) (list_ascii_of_string "0")))
  | _ => false
  end.

Definition ipv4 (v : value) : bool :=
  match v with
  | VString s =>
      match split_dots (list_ascii_of_string s) [] with
      | [a; b; c; d] => octet a && octet b && octet c && octet d
      | _ => false
      end
  | _ => false
  end.

Definition cycle (k : nat) : Z := Z.of_nat (Nat.modulo k 1000) + 1.

Definition cycle_range : forall k, 1 <= cycle k <= 1000.
Proof.
  intro k. unfold cycle.
  pose proof (Nat.mod_upper_bound k 1000). lia.
Qed.

Definition failure : value := VString "listener failed".

Definition functions (name : nat) (args : list value)
  (s : TcpSocket) (w : World) : script :=
  if Nat.eqb name 13 then {| requests := []; thrown := Some failure |}
  else silent.

#[export] Instance instance : Host := {|
  __DEV__ := true;
  Buffer_defined := true;
  random_id := cycle;
  random_id_range := cycle_range;
  ipRegex_exact_test := ipv4;
  Base64Str_encode := fun s => encode (utf8 s);
  Buffer_toString_base64 := fun v => encode (bytes_of v);
  base64_fromByteArray := fun v => encode (bytes_of v);
  base64_toByteArray := toByteArray;
  Buffer_from_base64 := new_Buffer;
  behaviour := functions
|}.

(** The socket that [new TcpSocket()] builds in the empty world, and the
    world it leaves behind. *)
Definition client : TcpSocket :=
  {| _events := []; _id := 1; _state := DISCONNECTED;
     readable := false; writable := false; _subscription := 1;
     _destroyed := false; _timeout := None; _address := VUndefined;
     _port := VUndefined; _family := VUndefined |}.

Definition client_world : World :=
  {| usedIds := [1]; random_drawn := 1;
     Sockets := [Sockets_createSocket 1];
     DeviceEventEmitter := [(1%nat, 1)]; subscriptions_made := 1;
     timers := []; timers_made := 0; console := []; emitted := [];
     called := [] |}.

(** [{ port: p }] *)
Definition port_only (p : value) : ConnectOptions :=
  {| host := VUndefined; port := p; localAddress := VUndefined;
     localPort := VUndefined; family := VUndefined |}.

(** The payload of a [connect] event. *)
Definition peer : value :=
  VObject [("address", VString "10.0.0.7"); ("port", VNumber (ofZ 8080));
           ("family", VString "IPv4")].

Definition connect_event : info := {| event := "connect"; data := peer |}.

(** A [data] event carrying the base64 of "hi". *)
Definition data_event : info := {| event := "data"; data := VString "aGk=" |}.

Definition close_event : info := {| event := "close"; data := VUndefined |}.

(** The client socket once [connect({ port: 80 })] was called and the
    [connect] event came back. *)
Definition established : TcpSocket * World :=
  Eval vm_compute in
    run [call_connect (port_only (VNumber (ofZ 80))) VUndefined;
         native_event 1 connect_event]
        (client, client_world).

(** A world in which the ids 1..1000 are all taken. *)
Definition crowded_world : World :=
  set_usedIds (map Z.of_nat (seq 1 1000)) empty_World.

End ReferenceHost.

(* ================================================================== *)
(** * Numbers and ports *)
(* ================================================================== *)

Local Open Scope Z_scope.

Example StringToNumber_examples :
  StringToNumber "80" = ofZ 80
  /\ StringToNumber " 80 " = ofZ 80
  /\ StringToNumber "8e1" = ofZ 80
  /\ StringToNumber "0x50" = ofZ 80
  /\ StringToNumber "65536" = ofZ 65536
  /\ StringToNumber "abc" = NaN
  /\ StringToNumber "80px" = NaN
  /\ StringToNumber "   " = ofZ 0
  /\ StringToNumber "-1" = ofZ (-1)
  /\ StringToNumber "1e400" = Infinity false.
Proof. vm_compute. repeat split. Qed.

Example isLegalPort_examples :
  isLegalPort (VNumber (ofZ 80)) = true
  /\ isLegalPort (VString "80") = true
  /\ isLegalPort (VNumber (ofZ 0)) = true
  /\ isLegalPort (VNumber (ofZ 65535)) = true
  /\ isLegalPort (VNumber (ofZ 65536)) = false
  /\ isLegalPort (VNumber (ofZ (-1))) = false
  /\ isLegalPort (VNumber (Finite (3 # 2))) = false
  /\ isLegalPort (VNumber NaN) = false
  /\ isLegalPort (VString "abc") = false
  /\ isLegalPort (VString "   ") = false
  /\ isLegalPort (VString "0x50") = true
  /\ isLegalPort (VString "80.00000000000000000000001") = true.
Proof. vm_compute. repeat split. Qed.

Lemma truncate_inject_Z (q : Q) (k : Z) : Qeq q (inject_Z k) -> truncate q = k.
Proof.
  unfold Qeq, truncate. simpl. intro E.
  rewrite Z.mul_1_r in E. rewrite E.
  apply Z.quot_mul. discriminate.
Qed.

(** The three tests of [isLegalPort] on a number hold exactly of the
    integers from 0 to 65535. *)
Lemma legal_number_iff (n : number) :
  number_strict_eq n (ofZ (ToUint32 n)) && number_ge n (ofZ 0)
    && number_le n (ofZ 65535) = true
  <-> exists (k : Z) (q : Q),
        0 <= k <= 65535 /\ n = Finite q /\ Qeq q (inject_Z k).
Proof.
  split.
  - intro L. apply andb_true_iff in L. destruct L as [L Hle].
    apply andb_true_iff in L. destruct L as [Heq Hge].
    destruct n as [ | sg | q]; simpl in Heq; try discriminate.
    unfold number_ge, ofZ in Hge. simpl in Hge, Hle.
    apply Qeq_bool_iff in Heq.
    apply Qle_bool_iff in Hge. apply Qle_bool_iff in Hle.
    set (u := truncate q mod 2 ^ 32) in *.
    exists u, q. repeat split; trivial.
    + apply Z.mod_pos_bound. reflexivity.
    + rewrite Heq in Hle. rewrite <- Zle_Qle in Hle. exact Hle.
  - intros (k & q & Hk & -> & E).
    unfold ToUint32, ofZ, number_ge. simpl.
    rewrite (truncate_inject_Z q k E).
    rewrite Z.mod_small by lia.
    apply andb_true_iff. split; [apply andb_true_iff; split | ].
    + apply Qeq_bool_iff. exact E.
    + apply Qle_bool_iff. rewrite E. rewrite <- Zle_Qle. lia.
    + apply Qle_bool_iff. rewrite E. rewrite <- Zle_Qle. lia.
Qed.

Lemma isLegalPort_number (n : number) :
  isLegalPort (VNumber n) = true <-> coerces_to_port (VNumber n).
Proof.
  unfold isLegalPort, coerces_to_port. simpl. apply legal_number_iff.
Qed.

Lemma isLegalPort_string (t : string) :
  isLegalPort (VString t) = true
  <-> blank (VString t) = false /\ coerces_to_port (VString t).
Proof.
  unfold isLegalPort, coerces_to_port, blank. simpl.
  destruct (String.eqb (trim t) EmptyString).
  - split; [discriminate | intros [? _]; discriminate].
  - rewrite legal_number_iff. tauto.
Qed.

Lemma not_true_false (b : bool) : b <> true -> b = false.
Proof. destruct b; congruence. Qed.

Section PortValidation.

Context {H : Host}.

Lemma local_options_pass_inv (o : ConnectOptions) :
  local_options_pass o = true ->
  ToBoolean (localAddress o) && negb (ipRegex_exact_test (localAddress o)) = false
  /\ ToBoolean (localPort o)
     && negb (String.eqb (typeof (localPort o)) "number") = false.
Proof.
  unfold local_options_pass. intro P.
  apply andb_true_iff in P. destruct P as [A B].
  apply negb_true_iff in A. apply negb_true_iff in B. split; assumption.
Qed.

Lemma check_port_outcome (p : value) (s : TcpSocket) (w : World) :
  check_port p s w =
  (if String.eqb (typeof p) "undefined" then Return tt
   else if negb (String.eqb (typeof p) "number")
           && negb (String.eqb (typeof p) "string")
        then Throw (port_TypeError p)
        else if isLegalPort p then Return tt
             else Throw (port_RangeError p), s, w).
Proof.
  unfold check_port.
  destruct (String.eqb (typeof p) "undefined"); simpl; [reflexivity | ].
  destruct (negb (String.eqb (typeof p) "number")
            && negb (String.eqb (typeof p) "string")); [reflexivity | ].
  destruct (isLegalPort p); reflexivity.
Qed.

Lemma connect_outcome (o : ConnectOptions) (cb : value) (s : TcpSocket) (w : World) :
  _state s = DISCONNECTED ->
  local_options_pass o = true ->
  outcome (connect o cb s w) = outcome (check_port (port o) s w).
Proof.
  intros St P. destruct (local_options_pass_inv _ P) as [A B].
  unfold connect, bind, this. rewrite St. cbn [STATE_eqb negb].
  rewrite A, B.
  assert (E : exists s1, (if String.eqb (typeof cb) "function"
                          then once "connect" cb else ret tt) s w
                         = (Return tt, s1, w)).
  { destruct cb; simpl; eexists; reflexivity. }
  destruct E as [s1 ->].
  rewrite !check_port_outcome.
  destruct (String.eqb (typeof (port o)) "undefined");
    [ | destruct (negb (String.eqb (typeof (port o)) "number")
                  && negb (String.eqb (typeof (port o)) "string"));
        [ | destruct (isLegalPort (port o)) ] ];
    try reflexivity; unfold _debug; destruct __DEV__; reflexivity.
Qed.

(** C1 (amended).  On a Disconnected handle whose [localAddress] and
    [localPort] options pass, [connect] with [options.port] given: a port
    that is neither a number nor a string fails with the TypeError; a
    number or string passes exactly when it is not blank and coerces to an
    integer from 0 to 65535, and otherwise fails with the RangeError.  So
    65536, "abc", the empty string and a string of spaces all fail with
    the range subkind, and 80 and "80" pass. *)
Theorem connect_port_validation
  (o : ConnectOptions) (cb : value) (s : TcpSocket) (w : World) :
  _state s = DISCONNECTED ->
  local_options_pass o = true ->
  let r := outcome (connect o cb s w) in
  let p := port o in
  (typeof p <> "undefined" /\ typeof p <> "number" /\ typeof p <> "string" ->
   r = Throw (port_TypeError p))
  /\ (typeof p = "number" \/ typeof p = "string" ->
      (blank p = false /\ coerces_to_port p -> r = Return tt)
      /\ (~ (blank p = false /\ coerces_to_port p) ->
          r = Throw (port_RangeError p)))
  /\ (p = VNumber (ofZ 65536) \/ p = VString "abc"
      \/ p = VString EmptyString \/ p = VString "   " ->
      r = Throw (port_RangeError p))
  /\ (p = VNumber (ofZ 80) \/ p = VString "80" -> r = Return tt).
Proof.
  intros St P r p. subst r.
  rewrite (connect_outcome o cb s w St P), check_port_outcome.
  fold p. unfold outcome, fst.
  split; [ | split; [ | split ] ].
  - intros (U & N & S).
    apply String.eqb_neq in U, N, S. rewrite U, N, S. reflexivity.
  - intros T.
    assert (L : isLegalPort p = true <-> blank p = false /\ coerces_to_port p).
    { destruct p; simpl in T; destruct T as [T | T]; try discriminate T.
      - rewrite isLegalPort_number. simpl. tauto.
      - apply isLegalPort_string. }
    assert (E : String.eqb (typeof p) "undefined" = false
                /\ negb (String.eqb (typeof p) "number")
                   && negb (String.eqb (typeof p) "string") = false).
    { destruct T as [T | T]; rewrite T; split; reflexivity. }
    destruct E as [-> ->].
    split.
    + intro C. apply L in C. rewrite C. reflexivity.
    + intro C. rewrite (not_true_false (isLegalPort p)); [reflexivity | ].
      intro K. apply C, L, K.
  - intros [E | [E | [E | E]]]; rewrite E; reflexivity.
  - intros [E | E]; rewrite E; reflexivity.
Qed.

End PortValidation.


(* ================================================================== *)
(** * Allocation of client ids *)
(* ================================================================== *)

Section Allocation.

Context {H : Host}.

Lemma indexOf_spec (l : list Z) (x : Z) :
  -1 <= indexOf l x /\ (indexOf l x = -1 <-> ~ In x l).
Proof.
  induction l as [ | y r [IHlow IHiff] ]; simpl.
  - split; [lia | tauto].
  - destruct (Z.eqb_spec y x) as [E | N].
    + split; [lia | ]. split; [lia | ]. intro K. elim K. left. exact E.
    + destruct (Z.eqb_spec (indexOf r x) (-1)) as [E1 | N1].
      * split; [lia | ]. split; [ | reflexivity ].
        intros _ [K | K]; [contradiction | ]. apply IHiff in E1. contradiction.
      * split; [lia | ]. split; [lia | ].
        intro K. elim N1. apply IHiff. intro I. apply K. right. exact I.
Qed.

Lemma used_test (l : list Z) (x : Z) :
  negb (Z.eqb (indexOf l x) (-1)) = true <-> In x l.
Proof.
  destruct (indexOf_spec l x) as [_ I].
  rewrite negb_true_iff, Z.eqb_neq, I.
  split; [ | tauto ].
  intro NN. destruct (in_dec Z.eq_dec x l); [assumption | contradiction].
Qed.

(** With every id of the range taken, the loop is still running however
    many draws it is given. *)
Lemma allocate_exhausted (used : list Z) :
  exhausted used -> forall fuel drawn, allocate fuel used drawn = None.
Proof.
  intros E fuel. induction fuel as [ | fuel IH]; intro drawn; simpl.
  - reflexivity.
  - assert (U : negb (Z.eqb (indexOf used (random_id drawn)) (-1)) = true).
    { apply used_test, E, random_id_range. }
    rewrite U. apply IH.
Qed.

(** The loop stops at the first draw that is not taken. *)
Lemma allocate_first_free (used : list Z) (k : nat) :
  forall drawn fuel,
    (forall j, (j < k)%nat -> In (random_id (drawn + j)) used) ->
    ~ In (random_id (drawn + k)) used ->
    (k < fuel)%nat ->
    allocate fuel used drawn = Some (random_id (drawn + k), S (drawn + k)).
Proof.
  induction k as [ | k IH]; intros drawn fuel Taken Free Fuel;
    (destruct fuel as [ | fuel]; [lia | ]); simpl.
  - rewrite Nat.add_0_r in *.
    rewrite (not_true_false _ (fun K => Free (proj1 (used_test _ _) K))).
    reflexivity.
  - assert (U : negb (Z.eqb (indexOf used (random_id drawn)) (-1)) = true).
    { apply used_test. specialize (Taken 0%nat). rewrite Nat.add_0_r in Taken.
      apply Taken. lia. }
    rewrite U.
    replace (drawn + S k)%nat with (S drawn + k)%nat in * by lia.
    apply IH.
    + intros j Hj. replace (S drawn + j)%nat with (drawn + S j)%nat by lia.
      apply Taken. lia.
    + exact Free.
    + lia.
Qed.

(** An id the loop returns is in range and was not taken. *)
Lemma allocate_fresh (used : list Z) :
  forall fuel drawn id drawn',
    allocate fuel used drawn = Some (id, drawn') ->
    ~ In id used /\ 1 <= id <= 1000 /\ (drawn < drawn')%nat.
Proof.
  induction fuel as [ | fuel IH]; intros drawn id drawn'; simpl.
  - discriminate.
  - destruct (negb (Z.eqb (indexOf used (random_id drawn)) (-1))) eqn:U.
    + intro A. apply IH in A. intuition lia.
    + intro A. inversion A; subst.
      split; [ | split; [apply random_id_range | lia] ].
      intro I. apply used_test in I. congruence.
Qed.

(** The constructor, once the id is chosen. *)
Lemma new_TcpSocket_client (fuel : nat) (w : World) :
  new_TcpSocket fuel None w =
  match allocate fuel (usedIds w) (random_drawn w) with
  | None => None
  | Some (id, drawn) =>
      Some ({| _events := []; _id := id; _state := DISCONNECTED;
               readable := false; writable := false;
               _subscription := S (subscriptions_made w);
               _destroyed := false; _timeout := None;
               _address := VUndefined; _port := VUndefined;
               _family := VUndefined |},
            {| usedIds := usedIds w ++ [id]; random_drawn := drawn;
               Sockets := Sockets w ++ [Sockets_createSocket id];
               DeviceEventEmitter :=
                 DeviceEventEmitter w ++ [(S (subscriptions_made w), id)];
               subscriptions_made := S (subscriptions_made w);
               timers := timers w; timers_made := timers_made w;
               console := console w; emitted := emitted w;
               called := called w |})
  end.
Proof.
  unfold new_TcpSocket.
  destruct (allocate fuel (usedIds w) (random_drawn w)) as [[id drawn] | ];
    reflexivity.
Qed.

(** C2 (amended).  Client-side id allocation has no retry bound and no
    ResourceExhausted failure.  When the ids 1..1000 are all in use the
    constructor is still looping after any number of draws; otherwise it
    stops at the first draw that is not in use and the new handle carries
    that id. *)
Theorem client_allocation (w : World) :
  (exhausted (usedIds w) -> forall fuel, new_TcpSocket fuel None w = None)
  /\ (forall k,
        (forall j, (j < k)%nat ->
                   In (random_id (random_drawn w + j)) (usedIds w)) ->
        ~ In (random_id (random_drawn w + k)) (usedIds w) ->
        forall fuel, (k < fuel)%nat ->
        exists s w',
          new_TcpSocket fuel None w = Some (s, w')
          /\ _id s = random_id (random_drawn w + k)
          /\ usedIds w' = (usedIds w ++ [_id s])%list).
Proof.
  split.
  - intros E fuel. rewrite new_TcpSocket_client, allocate_exhausted by exact E.
    reflexivity.
  - intros k Taken Free fuel Fuel.
    rewrite new_TcpSocket_client.
    rewrite (allocate_first_free (usedIds w) k (random_drawn w) fuel Taken Free Fuel).
    eexists. eexists. split; [reflexivity | split; reflexivity].
Qed.

End Allocation.

(* ================================================================== *)
(** * What every method preserves *)
(* ================================================================== *)

(** A relation that is reflexive and transitive, and that every primitive
    update of the handle and of the world respects, is respected by every
    method, by every function of the caller (which can only call
    methods), and so by every action. *)
Lemma run_cons `{Host} (a : action) (l : list action) (sw : TcpSocket * World) :
  run (a :: l) sw = run l (perform a sw).
Proof. reflexivity. Qed.

Lemma run_app `{Host} (l1 l2 : list action) (sw : TcpSocket * World) :
  run (l1 ++ l2) sw = run l2 (run l1 sw).
Proof. apply fold_left_app. Qed.

(** ** The monad *)

Section Within_monad.

Variable R : change.

Hypothesis R_refl : forall s w, R s w s w.
Hypothesis R_trans :
  forall s1 w1 s2 w2 s3 w3, R s1 w1 s2 w2 -> R s2 w2 s3 w3 -> R s1 w1 s3 w3.

Lemma within_ret A (a : A) : within R (ret a).
Proof. intros s w. apply R_refl. Qed.

Lemma within_throw A (e : value) : within R (@throw A e).
Proof. intros s w. apply R_refl. Qed.

Lemma within_lift A (c : completion A) : within R (lift c).
Proof. intros s w. apply R_refl. Qed.

Lemma within_this : within R this.
Proof. intros s w. apply R_refl. Qed.

Lemma within_world : within R world.
Proof. intros s w. apply R_refl. Qed.

Lemma within_bind A B (m : M A) (k : A -> M B) :
  within R m -> (forall a, within R (k a)) -> within R (bind m k).
Proof.
  intros Hm Hk s w. specialize (Hm s w). unfold bind.
  destruct (m s w) as [[c s'] w']. unfold socket_of, world_of in Hm.
  simpl in Hm. destruct c as [a | e].
  - apply R_trans with s' w'; [exact Hm | apply Hk].
  - exact Hm.
Qed.

Lemma within_update_this (f : TcpSocket -> TcpSocket) :
  (forall s w, R s w (f s) w) -> within R (update_this f).
Proof. intros Hf s w. apply Hf. Qed.

Lemma within_update_world (f : World -> World) :
  (forall s w, R s w s (f w)) -> within R (update_world f).
Proof. intros Hf s w. apply Hf. Qed.

(** [try { m } catch (e) {}] changes what [m] changes. *)
Lemma within_caught A (m : M A) : within R m -> within R (caught m).
Proof. intros Hm s w. apply Hm. Qed.

End Within_monad.

Ltac within_step R Rr Rt :=
  first
    [ apply (within_ret R Rr) | apply (within_throw R Rr)
    | apply (within_lift R Rr)
    | apply (within_this R Rr) | apply (within_world R Rr)
    | apply (within_bind R Rt); [ | intro ]
    | apply within_update_this; intros; solve [auto]
    | apply within_update_world; intros; solve [auto]
    | match goal with
      | |- within _ (if ?b then _ else _) => destruct b
      | |- within _ (match ?x with _ => _ end) => destruct x
      end ].

(** ** The methods, from the updates they make *)

Section Within.

Context {H : Host}.

Variable R : change.

Hypothesis R_refl : forall s w, R s w s w.
Hypothesis R_trans :
  forall s1 w1 s2 w2 s3 w3, R s1 w1 s2 w2 -> R s2 w2 s3 w3 -> R s1 w1 s3 w3.

Hypothesis R_events : forall x s w, R s w (set__events x s) w.
Hypothesis R_state : forall x s w, R s w (set__state x s) w.
Hypothesis R_destroyed : forall s w, R s w (set__destroyed true s) w.
Hypothesis R_timeout : forall s w, R s w (set__timeout None s) w.
Hypothesis R_sent : forall c s w, R s w s (sent c w).
Hypothesis R_unsubscribed : forall k s w, R s w s (unsubscribed k w).
Hypothesis R_disarmed : forall t s w, R s w s (disarmed t w).
Hypothesis R_logged : forall id a s w, R s w s (logged id a w).
Hypothesis R_armed :
  forall ms s w,
    R s w (set__timeout (Some (S (timers_made w))) s)
          (set_timers (timers w ++ [(S (timers_made w), ms)])
                      (S (timers_made w)) w).

(** [this._timeout = setTimeout(f, msecs)] *)
Lemma within_arm ms :
  within R (bind (global_setTimeout ms)
                 (fun t => update_this (set__timeout (Some t)))).
Proof. intros s w. apply R_armed. Qed.

Ltac within_auto := repeat within_step R R_refl R_trans.

Lemma within_debug args : within R (_debug args).
Proof. unfold _debug. within_auto. Qed.

Lemma within_native c : within R (native c).
Proof. unfold native. within_auto. Qed.

Lemma within_clearTimeout t : within R (clearTimeout t).
Proof. unfold clearTimeout. within_auto. Qed.

Lemma within_subscription_remove k : within R (subscription_remove k).
Proof. unfold subscription_remove. within_auto. Qed.

Lemma within_once e f : within R (once e f).
Proof. unfold once. within_auto. Qed.

Lemma within_on e f : within R (on e f).
Proof. unfold on. within_auto. Qed.

Lemma within_check_port p : within R (check_port p).
Proof. unfold check_port. within_auto. Qed.

Hint Resolve within_debug within_native within_clearTimeout
  within_subscription_remove within_once within_on within_check_port : core.

Ltac within_methods :=
  repeat first [ solve [auto] | apply within_arm
               | within_step R R_refl R_trans ].

Lemma within_connect o cb : within R (connect o cb).
Proof. unfold connect. within_methods. Qed.

Lemma within_destroy : within R destroy.
Proof. unfold destroy. within_methods. Qed.

Lemma within_setTimeout ms cb : within R (setTimeout ms cb).
Proof. unfold setTimeout. within_methods. Qed.

Lemma within_address : within R address.
Proof. unfold address. within_methods. Qed.

Lemma within_write b cb : within R (write b cb).
Proof. unfold write. within_methods. Qed.

Lemma within_end d e : within R (end_ d e).
Proof.
  unfold end_.
  repeat first [ solve [auto] | apply within_write
               | within_step R R_refl R_trans ].
Qed.

(** Every call a caller's function can make. *)
Lemma within_serve q : within R (serve q).
Proof.
  destruct q; simpl.
  - apply within_connect.
  - apply (within_bind R R_trans); [apply within_write | intro].
    apply (within_ret R R_refl).
  - apply within_end.
  - apply within_destroy.
  - apply within_setTimeout.
  - apply (within_bind R R_trans); [apply within_address | intro].
    apply (within_ret R R_refl).
  - apply within_on.
  - apply within_once.
Qed.

End Within.

(** ** The caller's functions, from the calls they make *)

Section Within_functions.

Context {H : Host}.

Variable R : change.

Hypothesis R_refl : forall s w, R s w s w.
Hypothesis R_trans :
  forall s1 w1 s2 w2 s3 w3, R s1 w1 s2 w2 -> R s2 w2 s3 w3 -> R s1 w1 s3 w3.

Lemma within_play (qs : list request) :
  (forall q, In q qs -> within R (serve q)) -> within R (play qs).
Proof.
  induction qs as [ | q qs IH]; intro All; simpl.
  - apply (within_ret R R_refl).
  - apply (within_bind R R_trans).
    + apply within_caught. apply All. left. reflexivity.
    + intros _. apply IH. intros q' I. apply All. right. exact I.
Qed.

(** A function whose calls on the socket stay within [R] stays within
    [R]. *)
Lemma within_invoke_of (g : function) (args : list value) :
  (forall name s w q,
      g = UserFunction name ->
      In q (requests (behaviour name args s w)) -> within R (serve q)) ->
  within R (invoke g args).
Proof.
  intros All s w. destruct g as [ | name]; simpl; [apply R_refl | ].
  unfold bind, this, world.
  pose proof (within_play (requests (behaviour name args s w))
                (fun q I => All name s w q eq_refl I) s w) as P.
  destruct (play (requests (behaviour name args s w)) s w) as [[c s'] w'].
  unfold socket_of, world_of in P. simpl in P.
  destruct c as [ [] | e]; [ | exact P].
  destruct (thrown (behaviour name args s w)); exact P.
Qed.

Hypothesis R_events : forall x s w, R s w (set__events x s) w.
Hypothesis M_connect : forall o cb, within R (connect o cb).
Hypothesis M_write : forall b cb, within R (write b cb).
Hypothesis M_end : forall d e, within R (end_ d e).
Hypothesis M_destroy : within R destroy.
Hypothesis M_setTimeout : forall ms cb, within R (setTimeout ms cb).
Hypothesis M_address : within R address.

Lemma within_serve_methods q : within R (serve q).
Proof.
  destruct q; simpl.
  - apply M_connect.
  - apply (within_bind R R_trans); [apply M_write | intro].
    apply (within_ret R R_refl).
  - apply M_end.
  - apply M_destroy.
  - apply M_setTimeout.
  - apply (within_bind R R_trans); [apply M_address | intro].
    apply (within_ret R R_refl).
  - unfold on. repeat within_step R R_refl R_trans.
  - unfold once. repeat within_step R R_refl R_trans.
Qed.

Lemma within_invoke_methods g args : within R (invoke g args).
Proof.
  apply within_invoke_of. intros name s w q _ _. apply within_serve_methods.
Qed.

End Within_functions.

(** ** What the host runs, from the methods and the caller's functions *)

Section Through.

Context {H : Host}.

Variable R : change.

Hypothesis R_refl : forall s w, R s w s w.
Hypothesis R_trans :
  forall s1 w1 s2 w2 s3 w3, R s1 w1 s2 w2 -> R s2 w2 s3 w3 -> R s1 w1 s3 w3.

Hypothesis R_invoke : forall g args, within R (invoke g args).
Hypothesis R_events : forall x s w, R s w (set__events x s) w.
Hypothesis R_called : forall x s w, R s w s (set_called (called w ++ x) w).
Hypothesis R_emitted : forall x s w, R s w s (set_emitted (emitted w ++ x) w).

Ltac through_auto :=
  repeat first [ solve [auto] | within_step R R_refl R_trans ].

Lemma through_call f args : within R (call f args).
Proof. unfold call. through_auto. Qed.

Lemma through_call_listeners ls args : within R (call_listeners ls args).
Proof.
  induction ls as [ | l ls IH]; cbn [call_listeners].
  - apply (within_ret R R_refl).
  - apply (within_bind R R_trans); [through_auto | intros _].
    apply (within_bind R R_trans); [apply through_call | intros _].
    exact IH.
Qed.

Lemma through_emit e args : within R (emit e args).
Proof.
  unfold emit.
  repeat first [ solve [auto] | apply through_call_listeners
               | within_step R R_refl R_trans ].
Qed.

Hypothesis R_timeout : forall s w, R s w (set__timeout None s) w.
Hypothesis R_disarmed : forall t s w, R s w s (disarmed t w).
Hypothesis R_logged : forall id a s w, R s w s (logged id a w).

Hypothesis M_destroy : within R destroy.

Lemma through_debug args : within R (_debug args).
Proof. apply within_debug; assumption. Qed.

Lemma through_clearTimeout t : within R (clearTimeout t).
Proof. apply within_clearTimeout; assumption. Qed.

Hint Resolve through_call through_emit through_debug through_clearTimeout
  : core.

Lemma through_timeout_callback : within R timeout_callback.
Proof. unfold timeout_callback. through_auto. Qed.

Lemma through_expire t : within R (expire t).
Proof.
  unfold expire.
  repeat first [ solve [auto] | apply through_timeout_callback
               | within_step R R_refl R_trans ].
Qed.

Lemma through_write_callback cb err : within R (write_callback cb err).
Proof. unfold write_callback. through_auto. Qed.

Hypothesis R_state : forall x s w, R s w (set__state x s) w.
Hypothesis R_remote : forall a p f s w, R s w (set_remote a p f s) w.

(** Every event but [connect]. *)
Lemma through_onEvent_other i :
  String.eqb (event i) "connect" = false -> within R (_onEvent i).
Proof. intro E. unfold _onEvent. rewrite E. through_auto. Qed.

Lemma through_deliver_other id i :
  String.eqb (event i) "connect" = false -> within R (deliver id i).
Proof.
  intro E. unfold deliver.
  repeat first [ solve [auto] | apply (through_onEvent_other i E)
               | within_step R R_refl R_trans ].
Qed.

Hypothesis M_connect : forall o cb, within R (connect o cb).
Hypothesis M_write : forall b cb, within R (write b cb).
Hypothesis M_end : forall d e, within R (end_ d e).
Hypothesis M_setTimeout : forall ms cb, within R (setTimeout ms cb).
Hypothesis M_address : within R address.

Lemma through_perform_other a s w :
  is_connect_event a = false ->
  R s w (fst (perform a (s, w))) (snd (perform a (s, w))).
Proof.
  intro E. destruct a; simpl.
  - apply M_connect.
  - apply M_write.
  - apply M_end.
  - apply M_destroy.
  - apply M_setTimeout.
  - apply M_address.
  - apply through_deliver_other. exact E.
  - apply through_expire.
  - apply through_write_callback.
Qed.

Lemma through_run_other l :
  forallb (fun a => negb (is_connect_event a)) l = true ->
  forall s w, R s w (fst (run l (s, w))) (snd (run l (s, w))).
Proof.
  induction l as [ | a l IH]; intros F s w.
  - apply R_refl.
  - simpl in F. apply andb_true_iff in F. destruct F as [Fa Fl].
    apply negb_true_iff in Fa.
    rewrite run_cons.
    pose proof (through_perform_other a s w Fa) as P.
    destruct (perform a (s, w)) as [s1 w1]. simpl in P.
    apply R_trans with s1 w1; [exact P | apply IH; exact Fl].
Qed.

Hypothesis R_flags :
  forall s w, R s w (set_writable true (set_readable true s)) w.

Lemma through_onEvent i : within R (_onEvent i).
Proof. unfold _onEvent. through_auto. Qed.

Lemma through_deliver id i : within R (deliver id i).
Proof.
  unfold deliver.
  repeat first [ solve [auto] | apply through_onEvent
               | within_step R R_refl R_trans ].
Qed.

Lemma through_perform a s w :
  R s w (fst (perform a (s, w))) (snd (perform a (s, w))).
Proof.
  destruct a; simpl.
  - apply M_connect.
  - apply M_write.
  - apply M_end.
  - apply M_destroy.
  - apply M_setTimeout.
  - apply M_address.
  - apply through_deliver.
  - apply through_expire.
  - apply through_write_callback.
Qed.

Lemma through_run l :
  forall s w, R s w (fst (run l (s, w))) (snd (run l (s, w))).
Proof.
  induction l as [ | a l IH]; intros s w.
  - apply R_refl.
  - rewrite run_cons.
    pose proof (through_perform a s w) as P.
    destruct (perform a (s, w)) as [s1 w1]. simpl in P.
    apply R_trans with s1 w1; [exact P | apply IH].
Qed.

End Through.

(** ** Everything, from the updates *)

Section Within_actions.

Context {H : Host}.

Variable R : change.

Hypothesis R_refl : forall s w, R s w s w.
Hypothesis R_trans :
  forall s1 w1 s2 w2 s3 w3, R s1 w1 s2 w2 -> R s2 w2 s3 w3 -> R s1 w1 s3 w3.

Hypothesis R_events : forall x s w, R s w (set__events x s) w.
Hypothesis R_state : forall x s w, R s w (set__state x s) w.
Hypothesis R_destroyed : forall s w, R s w (set__destroyed true s) w.
Hypothesis R_timeout : forall s w, R s w (set__timeout None s) w.
Hypothesis R_remote : forall a p f s w, R s w (set_remote a p f s) w.
Hypothesis R_sent : forall c s w, R s w s (sent c w).
Hypothesis R_unsubscribed : forall k s w, R s w s (unsubscribed k w).
Hypothesis R_disarmed : forall t s w, R s w s (disarmed t w).
Hypothesis R_logged : forall id a s w, R s w s (logged id a w).
Hypothesis R_called : forall x s w, R s w s (set_called (called w ++ x) w).
Hypothesis R_emitted : forall x s w, R s w s (set_emitted (emitted w ++ x) w).
Hypothesis R_armed :
  forall ms s w,
    R s w (set__timeout (Some (S (timers_made w))) s)
          (set_timers (timers w ++ [(S (timers_made w), ms)])
                      (S (timers_made w)) w).

Lemma within_invoke g args : within R (invoke g args).
Proof.
  apply within_invoke_of; try assumption.
  intros name s w q _ _. apply within_serve; assumption.
Qed.

Ltac from_updates :=
  try assumption;
  try solve [ intros; apply within_invoke
            | intros; apply within_connect; assumption
            | intros; apply within_write; assumption
            | intros; apply within_end; assumption
            | intros; apply within_destroy; assumption
            | intros; apply within_setTimeout; assumption
            | intros; apply within_address; assumption ].

Lemma within_call f args : within R (call f args).
Proof. apply through_call; from_updates. Qed.



Lemma within_expire t : within R (expire t).
Proof. apply through_expire; from_updates. Qed.

Lemma within_write_callback cb err : within R (write_callback cb err).
Proof. apply through_write_callback; from_updates. Qed.

Lemma within_onEvent_other i :
  String.eqb (event i) "connect" = false -> within R (_onEvent i).
Proof. apply through_onEvent_other; from_updates. Qed.

Lemma within_deliver_other id i :
  String.eqb (event i) "connect" = false -> within R (deliver id i).
Proof. apply through_deliver_other; from_updates. Qed.

Lemma within_run_other l :
  forallb (fun a => negb (is_connect_event a)) l = true ->
  forall s w, R s w (fst (run l (s, w))) (snd (run l (s, w))).
Proof. apply through_run_other; from_updates. Qed.

Hypothesis R_flags :
  forall s w, R s w (set_writable true (set_readable true s)) w.


Lemma within_deliver id i : within R (deliver id i).
Proof. apply through_deliver; from_updates. Qed.

Lemma within_perform a s w :
  R s w (fst (perform a (s, w))) (snd (perform a (s, w))).
Proof. apply through_perform; from_updates. Qed.

Lemma within_run l :
  forall s w, R s w (fst (run l (s, w))) (snd (run l (s, w))).
Proof. apply through_run; from_updates. Qed.

End Within_actions.

Section Preserved.

Context {H : Host}.

Ltac change_tac R :=
  intros; unfold R, sent, unsubscribed, disarmed, logged in *; simpl in *;
  intuition congruence.

Lemma evolves_run (l : list action) (s : TcpSocket) (w : World) :
  evolves s w (fst (run l (s, w))) (snd (run l (s, w))).
Proof. apply within_run; change_tac evolves. Qed.

Lemma evolves_perform (a : action) (s : TcpSocket) (w : World) :
  evolves s w (fst (perform a (s, w))) (snd (perform a (s, w))).
Proof. apply (evolves_run [a]). Qed.

Lemma keeps_flags_run (l : list action) (s : TcpSocket) (w : World) :
  forallb (fun a => negb (is_connect_event a)) l = true ->
  keeps_flags s w (fst (run l (s, w))) (snd (run l (s, w))).
Proof. intro F. apply within_run_other; trivial; change_tac keeps_flags. Qed.

Lemma timers_advance_trans s1 w1 s2 w2 s3 w3 :
  timers_advance s1 w1 s2 w2 -> timers_advance s2 w2 s3 w3 ->
  timers_advance s1 w1 s3 w3.
Proof.
  intros (M1 & T1 & K1) (M2 & T2 & K2). split; [lia | split].
  - intros e I. destruct (T2 e I) as [I2 | B]; [ | right; lia].
    destruct (T1 e I2) as [I1 | B]; [left; exact I1 | right; lia].
  - intros t I. destruct (K2 t I) as [I2 | B]; [ | right; lia].
    destruct (K1 t I2) as [I1 | B]; [left; exact I1 | right; lia].
Qed.

Lemma timers_advance_disarmed (t : nat) (s : TcpSocket) (w : World) :
  timers_advance s w s (disarmed t w).
Proof.
  unfold timers_advance, disarmed. simpl.
  repeat split; auto. intros e I. apply filter_In in I. tauto.
Qed.

Lemma timers_advance_armed (ms : number) (s : TcpSocket) (w : World) :
  timers_advance s w
    (set__timeout (Some (S (timers_made w))) s)
    (set_timers (timers w ++ [(S (timers_made w), ms)])
                (S (timers_made w)) w).
Proof.
  unfold timers_advance. simpl.
  split; [lia | split].
  - intros e I. apply in_app_iff in I. destruct I as [I | [E | []]].
    + left. exact I.
    + right. subst e. simpl. lia.
  - intros t E. inversion E. right. lia.
Qed.

Ltac timers_advance_updates :=
  first
    [ exact timers_advance_trans
    | exact timers_advance_disarmed
    | exact timers_advance_armed
    | solve [intros; unfold timers_advance, sent, unsubscribed, logged;
             simpl; repeat split; auto; discriminate] ].



Lemma timers_advance_call (f : value) (args : list value) :
  within timers_advance (call f args).
Proof. apply within_call; timers_advance_updates. Qed.



Lemma armed_In (t : nat) (w : World) :
  armed t w = true <-> exists ms, In (t, ms) (timers w).
Proof.
  unfold armed. rewrite existsb_exists. split.
  - intros ([t' ms] & I & E). simpl in E. apply Nat.eqb_eq in E. subst t'.
    exists ms. exact I.
  - intros (ms & I). exists (t, ms). split; [exact I | apply Nat.eqb_refl].
Qed.


End Preserved.

(* ================================================================== *)
(** * The methods, case by case *)
(* ================================================================== *)

Section Methods_run.

Context {H : Host}.

Lemma _debug_run (args : list value) (s : TcpSocket) (w : World) :
  _debug args s w = (Return tt, s, debugged args s w).
Proof. unfold _debug, debugged. destruct __DEV__; reflexivity. Qed.

Lemma STATE_eqb_eq (a b : STATE) : STATE_eqb a b = true <-> a = b.
Proof. destruct a, b; simpl; split; congruence. Qed.

Lemma STATE_eqb_neq (a b : STATE) : STATE_eqb a b = false <-> a <> b.
Proof. destruct a, b; simpl; split; congruence. Qed.

(** ** connect *)

Lemma connect_bound (o : ConnectOptions) (cb : value) (s : TcpSocket) (w : World) :
  _state s <> DISCONNECTED ->
  connect o cb s w
  = (Throw (new_Error Error "Socket is already bound" []), s, w).
Proof.
  intro N. apply STATE_eqb_neq in N.
  unfold connect, bind, this. rewrite N. reflexivity.
Qed.

Lemma connect_returns (o : ConnectOptions) (cb : value) (s : TcpSocket) (w : World) :
  outcome (connect o cb s w) = Return tt ->
  _state s = DISCONNECTED
  /\ outcome (check_port (port o) s w) = Return tt
  /\ _state (socket_of (connect o cb s w)) = CONNECTING
  /\ exists h p,
       Sockets (world_of (connect o cb s w))
       = (Sockets w ++ [Sockets_connect (_id s) h p o])%list.
Proof.
  destruct (STATE_eqb (_state s) DISCONNECTED) eqn:St.
  2:{ apply STATE_eqb_neq in St. rewrite (connect_bound o cb s w St).
      discriminate. }
  apply STATE_eqb_eq in St. intro R. split; [exact St | ].
  revert R. unfold connect, bind, this. rewrite St. cbn [STATE_eqb negb].
  assert (E : exists ev, (if String.eqb (typeof cb) "function"
                          then once "connect" cb else ret tt) s w
                         = (Return tt, set__events ev s, w)).
  { destruct cb; simpl; try (exists (_events s); destruct s; reflexivity).
    eexists; reflexivity. }
  destruct E as [ev ->].
  destruct (ToBoolean (localAddress o)
            && negb (ipRegex_exact_test (localAddress o)));
    [discriminate | ].
  destruct (ToBoolean (localPort o)
            && negb (String.eqb (typeof (localPort o)) "number"));
    [discriminate | ].
  rewrite !check_port_outcome.
  destruct (String.eqb (typeof (port o)) "undefined");
    [ | destruct (negb (String.eqb (typeof (port o)) "number")
                  && negb (String.eqb (typeof (port o)) "string"));
        [ discriminate | destruct (isLegalPort (port o)); [ | discriminate ] ] ];
    unfold update_this; rewrite _debug_run; intros _;
    (split; [reflexivity | split; [reflexivity | ] ]);
    eexists; eexists; unfold world_of, native, update_world, sent, debugged;
    simpl; destruct __DEV__; reflexivity.
Qed.

(** ** write *)

Lemma write_disconnected (b cb : value) (s : TcpSocket) (w : World) :
  _state s = DISCONNECTED ->
  write b cb s w
  = (Throw (new_Error Error "Socket is not connected." []), s, w).
Proof. intro St. unfold write, bind, this. rewrite St. reflexivity. Qed.

Lemma write_accepted (b cb : value) (s : TcpSocket) (w : World) :
  _state s <> DISCONNECTED ->
  encodable b = true ->
  write b cb s w
  = (Return true, s,
     sent (Sockets_write (_id s) (wire_encoded b) (callback_or_noop cb))
          (write_logged b s w)).
Proof.
  intros St En. apply STATE_eqb_neq in St.
  unfold write, bind, this. rewrite St.
  destruct b; try discriminate En; simpl.
  - rewrite _debug_run. reflexivity.
  - destruct Buffer_defined; reflexivity.
  - rewrite andb_false_r. reflexivity.
  - rewrite andb_false_r. reflexivity.
Qed.

Lemma write_rejected (b cb : value) (s : TcpSocket) (w : World) :
  _state s <> DISCONNECTED ->
  encodable b = false ->
  write b cb s w
  = (Throw (new_Error Error "invalid message format" []), s, w).
Proof.
  intros St En. apply STATE_eqb_neq in St.
  unfold write, bind, this. rewrite St.
  destruct b; try discriminate En; simpl; rewrite andb_false_r; reflexivity.
Qed.

(** ** destroy and end *)

Lemma destroy_destroyed (s : TcpSocket) (w : World) :
  _destroyed s = true -> destroy s w = (Return tt, s, w).
Proof. intro D. unfold destroy, bind, this. rewrite D. reflexivity. Qed.

Lemma destroy_live (s : TcpSocket) (w : World) :
  _destroyed s = false ->
  destroy s w
  = (Return tt, set__destroyed true s,
     sent (Sockets_destroy (_id s))
       (unsubscribed (_subscription s)
          (debugged [VString "destroying"] s w))).
Proof.
  intro D. unfold destroy, bind, this. rewrite D. simpl.
  rewrite _debug_run. reflexivity.
Qed.

Lemma end_destroyed (d e : value) (s : TcpSocket) (w : World) :
  _destroyed s = true -> end_ d e s w = (Return tt, s, w).
Proof. intro D. unfold end_, bind, this. rewrite D. reflexivity. Qed.

Lemma end_live (d e : value) (s : TcpSocket) (w : World) :
  _destroyed s = false ->
  end_ d e s w
  = if ToBoolean d then
      match write d e s w with
      | (Return _, s1, w1) => (Return tt, fst (ended s1 w1), snd (ended s1 w1))
      | (Throw x, s1, w1) => (Throw x, s1, w1)
      end
    else (Return tt, fst (ended s w), snd (ended s w)).
Proof.
  intro D. unfold end_, bind, this. rewrite D.
  destruct (ToBoolean d).
  - destruct (write d e s w) as [[[r | x] s1] w1]; simpl; [ | reflexivity].
    rewrite _debug_run. reflexivity.
  - simpl. rewrite _debug_run. reflexivity.
Qed.


Lemma write_socket (b cb : value) (s : TcpSocket) (w : World) :
  socket_of (write b cb s w) = s.
Proof.
  destruct (STATE_eqb (_state s) DISCONNECTED) eqn:St.
  - apply STATE_eqb_eq in St. rewrite write_disconnected by exact St.
    reflexivity.
  - apply STATE_eqb_neq in St. destruct (encodable b) eqn:En.
    + rewrite write_accepted by assumption. reflexivity.
    + rewrite write_rejected by assumption. reflexivity.
Qed.

Lemma Sockets_debugged args s w : Sockets (debugged args s w) = Sockets w.
Proof. unfold debugged. destruct __DEV__; reflexivity. Qed.

Lemma Sockets_write_logged b s w : Sockets (write_logged b s w) = Sockets w.
Proof. destruct b; simpl; trivial. apply Sockets_debugged. Qed.

Lemma subscribed_unsubscribed (k : nat) (id : Z) (w : World) :
  subscribed k id (unsubscribed k w) = false.
Proof.
  unfold subscribed, unsubscribed. simpl.
  apply not_true_false. intro E. apply existsb_exists in E.
  destruct E as ([k' id'] & I & T). apply filter_In in I. simpl in *.
  destruct I as [_ N]. apply andb_true_iff in T. destruct T as [T _].
  rewrite T in N. discriminate N.
Qed.

(** C3.  [connect] succeeds only on a Disconnected handle, and then the
    handle is Connecting and one connect command carrying the handle's id
    has been issued; on a handle in any other state, it throws "Socket is
    already bound" and changes nothing (no command is issued).  In
    particular a second [connect] right after a successful one fails.  On
    a Disconnected handle whose options pass validation it does succeed. *)
Theorem connect_only_when_disconnected
  (o : ConnectOptions) (cb : value) (s : TcpSocket) (w : World) :
  let r := connect o cb s w in
  (_state s <> DISCONNECTED ->
   r = (Throw (new_Error Error "Socket is already bound" []), s, w))
  /\ (outcome r = Return tt ->
      _state s = DISCONNECTED
      /\ _state (socket_of r) = CONNECTING
      /\ (exists h p,
            Sockets (world_of r)
            = (Sockets w ++ [Sockets_connect (_id s) h p o])%list)
      /\ forall o' cb',
           connect o' cb' (socket_of r) (world_of r)
           = (Throw (new_Error Error "Socket is already bound" []),
              socket_of r, world_of r))
  /\ (_state s = DISCONNECTED ->
      local_options_pass o = true ->
      outcome (check_port (port o) s w) = Return tt ->
      outcome r = Return tt).
Proof.
  intro r. split; [ | split ].
  - apply connect_bound.
  - intro R. destruct (connect_returns o cb s w R) as (St & _ & St' & Cmd).
    repeat split; trivial.
    intros o' cb'. apply connect_bound. fold r in St'. rewrite St'. discriminate.
  - intros St P C. subst r. rewrite (connect_outcome o cb s w St P). exact C.
Qed.

(** C4.  [write] on a Disconnected handle throws "Socket is not
    connected." and does nothing.  On a Connecting or Connected handle, a
    string, a Buffer, a Uint8Array or an Array is accepted: [write]
    returns true, leaves the handle as it is and issues exactly one write
    command, carrying the handle's id, the wire encoding of the payload and
    the caller's callback (or noop); any other payload throws "invalid
    message format" and does nothing. *)
Theorem write_by_state_and_payload
  (b cb : value) (s : TcpSocket) (w : World) :
  let r := write b cb s w in
  (_state s = DISCONNECTED ->
   r = (Throw (new_Error Error "Socket is not connected." []), s, w))
  /\ (_state s <> DISCONNECTED -> encodable b = true ->
      outcome r = Return true
      /\ socket_of r = s
      /\ Sockets (world_of r)
         = (Sockets w
            ++ [Sockets_write (_id s) (wire_encoded b) (callback_or_noop cb)])%list)
  /\ (_state s <> DISCONNECTED -> encodable b = false ->
      r = (Throw (new_Error Error "invalid message format" []), s, w)).
Proof.
  intro r. split; [ | split ].
  - apply write_disconnected.
  - intros St En. subst r. rewrite (write_accepted b cb s w St En).
    repeat split. unfold world_of, sent. simpl.
    rewrite Sockets_write_logged. reflexivity.
  - apply write_rejected.
Qed.

(** C5.  Once a handle is marked destroyed, [destroy()] and [end()] do
    nothing at all: same handle, same world, so no further command and
    no further removal of the subscription.  [destroy()] marks the handle;
    [end()] marks it whenever it returns.  The mark is never taken back,
    so this holds of every later [destroy()] or [end()], whatever
    happened in between. *)
Theorem teardown_is_idempotent (s : TcpSocket) (w : World) :
  (_destroyed s = true ->
   destroy s w = (Return tt, s, w)
   /\ forall d e, end_ d e s w = (Return tt, s, w))
  /\ _destroyed (socket_of (destroy s w)) = true
  /\ (forall d e, outcome (end_ d e s w) = Return tt ->
                  _destroyed (socket_of (end_ d e s w)) = true)
  /\ (_destroyed s = true ->
      forall l,
        let s' := fst (run l (s, w)) in
        let w' := snd (run l (s, w)) in
        destroy s' w' = (Return tt, s', w')
        /\ forall d e, end_ d e s' w' = (Return tt, s', w')).
Proof.
  split; [ | split; [ | split ] ].
  - intro D. split; [apply destroy_destroyed; exact D | ].
    intros d e. apply end_destroyed. exact D.
  - destruct (_destroyed s) eqn:D.
    + rewrite destroy_destroyed by exact D. exact D.
    + rewrite destroy_live by exact D. reflexivity.
  - intros d e. destruct (_destroyed s) eqn:D.
    + rewrite end_destroyed by exact D. intros _. exact D.
    + rewrite end_live by exact D. destruct (ToBoolean d).
      * destruct (write d e s w) as [[[r | x] s1] w1]; simpl;
          [reflexivity | discriminate].
      * reflexivity.
  - intros D l s' w'.
    assert (D' : _destroyed s' = true).
    { apply (evolves_run l s w). exact D. }
    split; [apply destroy_destroyed; exact D' | ].
    intros d e. apply end_destroyed. exact D'.
Qed.

(** C7 (amended).  [end(data, encoding)] on a handle already destroyed
    does nothing.  On a handle not yet destroyed: with no data (or falsy
    data) it marks the handle destroyed, removes the subscription and
    issues exactly one end command; with truthy data it first runs
    [write(data, encoding)], and if that write throws (handle
    Disconnected, or payload of an unsupported type) [end] throws the same
    error and does nothing else: the handle is not marked, the
    subscription stays and no end command is issued; if the write is
    accepted, the write command is followed by exactly one end command,
    the handle is marked and the subscription removed. *)
Theorem end_steps (d e : value) (s : TcpSocket) (w : World) :
  let r := end_ d e s w in
  (_destroyed s = true -> r = (Return tt, s, w))
  /\ (_destroyed s = false -> ToBoolean d = false ->
      outcome r = Return tt
      /\ socket_of r = set__destroyed true s
      /\ (forall id, subscribed (_subscription s) id (world_of r) = false)
      /\ Sockets (world_of r) = (Sockets w ++ [Sockets_end (_id s)])%list)
  /\ (_destroyed s = false -> ToBoolean d = true ->
      (_state s = DISCONNECTED \/ encodable d = false) ->
      exists x, write d e s w = (Throw x, s, w) /\ r = (Throw x, s, w))
  /\ (_destroyed s = false -> ToBoolean d = true ->
      _state s <> DISCONNECTED -> encodable d = true ->
      outcome r = Return tt
      /\ socket_of r = set__destroyed true s
      /\ (forall id, subscribed (_subscription s) id (world_of r) = false)
      /\ Sockets (world_of r)
         = (Sockets w
            ++ [Sockets_write (_id s) (wire_encoded d) (callback_or_noop e);
                Sockets_end (_id s)])%list).
Proof.
  intro r. subst r. split; [ | split; [ | split ] ].
  - apply end_destroyed.
  - intros D F. rewrite (end_live d e s w D), F.
    unfold ended, outcome, socket_of, world_of. simpl.
    repeat split.
    + intro id. apply subscribed_unsubscribed.
    + rewrite Sockets_debugged. reflexivity.
  - intros D T Bad. rewrite (end_live d e s w D), T.
    destruct (STATE_eqb (_state s) DISCONNECTED) eqn:St.
    + apply STATE_eqb_eq in St. rewrite (write_disconnected d e s w St).
      eexists. split; reflexivity.
    + apply STATE_eqb_neq in St. destruct Bad as [Bad | Bad]; [contradiction | ].
      rewrite (write_rejected d e s w St Bad).
      eexists. split; reflexivity.
  - intros D T St En. rewrite (end_live d e s w D), T.
    rewrite (write_accepted d e s w St En).
    unfold ended, outcome, socket_of, world_of. simpl.
    repeat split.
    + intro id. apply subscribed_unsubscribed.
    + rewrite Sockets_debugged. unfold sent. simpl.
      rewrite Sockets_write_logged, <- app_assoc. reflexivity.
Qed.

(** C10.  [destroy()] and [end()] change no field of the handle but
    [_destroyed]: [_state], [readable] and [writable] are as before.  So
    on a Connected handle, [write] of an accepted payload after
    [destroy()] (or [end()]) does not throw, returns true and issues a
    write command for the destroyed handle. *)
Theorem teardown_leaves_state_and_flags (s : TcpSocket) (w : World) :
  (forall (s1 : TcpSocket),
      (s1 = socket_of (destroy s w)
       \/ exists d e, s1 = socket_of (end_ d e s w)) ->
      s1 = set__destroyed (_destroyed s1) s
      /\ _state s1 = _state s
      /\ readable s1 = readable s
      /\ writable s1 = writable s)
  /\ (_state s = CONNECTED ->
      forall (r : completion unit * TcpSocket * World),
        (r = destroy s w \/ exists d e, r = end_ d e s w) ->
        forall b cb, encodable b = true ->
          outcome (write b cb (socket_of r) (world_of r)) = Return true
          /\ Sockets (world_of (write b cb (socket_of r) (world_of r)))
             = (Sockets (world_of r)
                ++ [Sockets_write (_id s) (wire_encoded b)
                                  (callback_or_noop cb)])%list).
Proof.
  assert (F : forall s1,
             (s1 = socket_of (destroy s w)
              \/ exists d e, s1 = socket_of (end_ d e s w)) ->
             s1 = set__destroyed (_destroyed s1) s).
  { intros s1 [-> | (d & e & ->)].
    - destruct (_destroyed s) eqn:D.
      + rewrite destroy_destroyed by exact D. simpl.
        destruct s; reflexivity.
      + rewrite destroy_live by exact D. reflexivity.
    - destruct (_destroyed s) eqn:D.
      + rewrite end_destroyed by exact D. simpl.
        destruct s; reflexivity.
      + rewrite end_live by exact D.
        pose proof (write_socket d e s w) as Ws.
        destruct (ToBoolean d); [ | reflexivity].
        destruct (write d e s w) as [[[x | x] s1] w1];
          unfold socket_of in *; simpl in *; subst s1; [reflexivity | ].
        destruct s; reflexivity. }
  split.
  - intros s1 C. pose proof (F s1 C) as E.
    split; [exact E | ]. rewrite E. repeat split.
  - intros St r C b cb En.
    assert (E : socket_of r = set__destroyed (_destroyed (socket_of r)) s).
    { apply F. destruct C as [-> | (d & e & ->)];
        [left; reflexivity | right; exists d, e; reflexivity]. }
    assert (St' : _state (socket_of r) <> DISCONNECTED).
    { rewrite E. simpl. rewrite St. discriminate. }
    assert (Id : _id (socket_of r) = _id s) by (rewrite E; reflexivity).
    rewrite (write_accepted b cb _ _ St' En).
    split; [reflexivity | ].
    unfold world_of at 1, sent. simpl. rewrite Sockets_write_logged, Id.
    reflexivity.
Qed.

End Methods_run.
(* ================================================================== *)
(** * Calls of the caller's functions *)
(* ================================================================== *)

Section Calls.

Context {H : Host}.

Lemma set__events_same (s : TcpSocket) : set__events (_events s) s = s.
Proof. destruct s; reflexivity. Qed.

Lemma set__events_twice (x y : list listener) (s : TcpSocket) :
  set__events x (set__events y s) = set__events x s.
Proof. reflexivity. Qed.

Lemma debugged_fields (args : list value) (s : TcpSocket) (w : World) :
  DeviceEventEmitter (debugged args s w) = DeviceEventEmitter w
  /\ usedIds (debugged args s w) = usedIds w
  /\ timers (debugged args s w) = timers w
  /\ timers_made (debugged args s w) = timers_made w
  /\ called (debugged args s w) = called w
  /\ emitted (debugged args s w) = emitted w
  /\ subscriptions_made (debugged args s w) = subscriptions_made w.
Proof. unfold debugged. destruct __DEV__; repeat split. Qed.


(** No method calls a function of the caller or emits an event, and
    none changes the id or the subscription key of the handle; so
    neither does a function of the caller. *)
Lemma invoke_keeps_logs (g : function) (args : list value)
  (s : TcpSocket) (w : World) :
  let r := invoke g args s w in
  called (world_of r) = called w
  /\ emitted (world_of r) = emitted w
  /\ _id (socket_of r) = _id s
  /\ _subscription (socket_of r) = _subscription s.
Proof.
  apply (within_invoke
           (fun s w s' w' =>
              called w' = called w /\ emitted w' = emitted w
              /\ _id s' = _id s /\ _subscription s' = _subscription s));
    intros; unfold sent, unsubscribed, disarmed, logged; simpl;
    intuition congruence.
Qed.

Lemma call_function (g : function) (args : list value)
  (s : TcpSocket) (w : World) :
  call (VFunction g) args s w
  = invoke g args s (set_called (called w ++ [(g, args)]) w).
Proof. reflexivity. Qed.

(** A call of a function adds one entry to [called]. *)
Lemma call_function_logs (g : function) (args : list value)
  (s : TcpSocket) (w : World) :
  let r := call (VFunction g) args s w in
  called (world_of r) = (called w ++ [(g, args)])%list
  /\ emitted (world_of r) = emitted w
  /\ _id (socket_of r) = _id s
  /\ _subscription (socket_of r) = _subscription s.
Proof.
  cbv zeta. rewrite call_function.
  destruct (invoke_keeps_logs g args s
              (set_called (called w ++ [(g, args)]) w)) as (A & B & C & D).
  repeat split; assumption.
Qed.

Lemma invoke_quiet (g : function) (args : list value)
  (s : TcpSocket) (w : World) :
  quiet g -> invoke g args s w = (Return tt, s, w).
Proof.
  destruct g as [ | name]; simpl; intro Q; [reflexivity | ].
  unfold bind, this, world. rewrite Q. reflexivity.
Qed.













End Calls.

(* ================================================================== *)
(** * The idle timer *)
(* ================================================================== *)

Section Timer.

Context {H : Host}.

Lemma armed_disarmed (t : nat) (w : World) : armed t (disarmed t w) = false.
Proof.
  apply not_true_false. intro A. apply armed_In in A. destruct A as [ms I].
  unfold disarmed in I. simpl in I. apply filter_In in I. simpl in I.
  rewrite Nat.eqb_refl in I. destruct I as [_ I]. discriminate I.
Qed.

Lemma armed_disarmed_other (t t' : nat) (w : World) :
  armed t w = false -> armed t (disarmed t' w) = false.
Proof.
  intro U. apply not_true_false. intro A. apply armed_In in A.
  destruct A as [ms I]. unfold disarmed in I. simpl in I.
  apply filter_In in I. destruct I as [I _].
  assert (A : armed t w = true) by (apply armed_In; exists ms; exact I).
  congruence.
Qed.

Lemma armed_same_timers (t : nat) (w w' : World) :
  timers w' = timers w -> armed t w' = armed t w.
Proof. intro E. unfold armed. rewrite E. reflexivity. Qed.



Lemma cleared_unarmed (s : TcpSocket) (w : World) (t : nat) :
  _timeout s = Some t -> armed t (snd (cleared s w)) = false.
Proof. intro E. unfold cleared. rewrite E. apply armed_disarmed. Qed.

Lemma cleared_facts (s : TcpSocket) (w : World) :
  _timeout (fst (cleared s w)) = None
  /\ _events (fst (cleared s w)) = _events s
  /\ _id (fst (cleared s w)) = _id s
  /\ timers_made (snd (cleared s w)) = timers_made w
  /\ emitted (snd (cleared s w)) = emitted w
  /\ forall t, armed t w = false -> armed t (snd (cleared s w)) = false.
Proof.
  unfold cleared. destruct (_timeout s) as [t0 | ] eqn:E; simpl;
    repeat split; trivial.
  intros t U. apply armed_disarmed_other. exact U.
Qed.

Lemma setTimeout_run (ms : number) (cb : value) (s : TcpSocket) (w : World) :
  setTimeout ms cb s w =
  let s0 := fst (cleared s w) in
  let w0 := snd (cleared s w) in
  if number_gt ms (ofZ 0) then
    if ToBoolean cb then
      match cb with
      | VFunction g =>
          (Return tt,
           set__timeout (Some (S (timers_made w0)))
             (set__events (_events s0 ++ [one_shot "timeout" g]) s0),
           arming ms w0)
      | _ => (Throw (new_Error TypeError "listener must be a function" []),
              s0, w0)
      end
    else (Return tt, set__timeout (Some (S (timers_made w0))) s0, arming ms w0)
  else (Return tt, s0, w0).
Proof.
  unfold setTimeout, cleared, bind, this.
  destruct (_timeout s) as [t | ]; simpl;
    destruct (number_gt ms (ofZ 0)); try reflexivity;
    destruct cb; simpl; try reflexivity;
    repeat match goal with
           | |- context [if ?b then _ else _] => destruct b; simpl
           end; reflexivity.
Qed.

Lemma expire_armed (t : nat) (s : TcpSocket) (w : World) :
  armed t w = true -> expire t s w = timeout_callback s (disarmed t w).
Proof. intro A. unfold expire, bind, world. rewrite A. reflexivity. Qed.

Lemma expire_unarmed (t : nat) (s : TcpSocket) (w : World) :
  armed t w = false -> expire t s w = (Return tt, s, w).
Proof. intro A. unfold expire, bind, world. rewrite A. reflexivity. Qed.


Lemma deliver_subscribed (id : Z) (i : info) (s : TcpSocket) (w : World) :
  subscribed (_subscription s) id w = true ->
  deliver id i s w = _onEvent i s w.
Proof. intro S. unfold deliver, bind, this, world. rewrite S. reflexivity. Qed.




End Timer.

(* ================================================================== *)
(** * Ids in use, and the readable and writable flags *)
(* ================================================================== *)

Section Lifecycle.

Context {H : Host}.

(** What the constructor leaves, whatever its options. *)
Lemma new_TcpSocket_facts
  (fuel : nat) (o : option (option Z)) (w w' : World) (s : TcpSocket) :
  new_TcpSocket fuel o w = Some (s, w') ->
  usedIds w' = (usedIds w ++ [_id s])%list
  /\ readable s = false /\ writable s = false
  /\ _destroyed s = false /\ _timeout s = None
  /\ subscribed (_subscription s) (_id s) w' = true
  /\ timers w' = timers w /\ timers_made w' = timers_made w.
Proof.
  unfold new_TcpSocket, addListener.
  destruct (match o with
            | Some (Some id) => if Z.eqb id 0 then None else Some id
            | _ => None
            end) as [nid | ];
    [ | destruct (allocate fuel (usedIds w) (random_drawn w)) as [[id d] | ];
        [ | discriminate ] ];
    intro E; inversion E; subst; simpl; repeat split; trivial;
    unfold subscribed; simpl; rewrite existsb_app; simpl;
    rewrite Nat.eqb_refl, Z.eqb_refl; apply orb_true_r.
Qed.

(** No method takes a handle out of the Connected state or resets
    [readable] or [writable]; so the listeners of an event do not. *)
Lemma emit_keeps_connected
  (ev : string) (args : list value) (s : TcpSocket) (w : World) :
  let s' := socket_of (emit ev args s w) in
  (_state s = CONNECTED -> _state s' = CONNECTED)
  /\ (readable s = true -> readable s' = true)
  /\ (writable s = true -> writable s' = true).
Proof.
  set (R := fun (s : TcpSocket) (w : World) (s' : TcpSocket) (w' : World) =>
              (_state s = CONNECTED -> _state s' = CONNECTED)
              /\ (readable s = true -> readable s' = true)
              /\ (writable s = true -> writable s' = true)).
  assert (Rr : forall s w, R s w s w) by (intros; unfold R; auto).
  assert (Rt : forall s1 w1 s2 w2 s3 w3,
             R s1 w1 s2 w2 -> R s2 w2 s3 w3 -> R s1 w1 s3 w3).
  { unfold R. intros. intuition. }
  assert (Mc : forall o cb, within R (connect o cb)).
  { intros o cb s0 w0. destruct (STATE_eqb (_state s0) DISCONNECTED) eqn:St.
    - apply STATE_eqb_eq in St.
      destruct (evolves_perform (call_connect o cb) s0 w0)
        as (_ & _ & _ & _ & _ & Hr & Hw).
      split; [intro K; rewrite St in K; discriminate K | ].
      split; assumption.
    - apply STATE_eqb_neq in St. rewrite (connect_bound o cb s0 w0 St).
      apply Rr. }
  apply (through_emit R Rr Rt);
    try solve [intros; unfold R; simpl; auto].
  apply within_invoke_methods; trivial;
    try solve [intros; unfold R; simpl; auto];
    intros;
    first [ apply within_write | apply within_end | apply within_destroy
          | apply within_setTimeout | apply within_address ];
    trivial; intros; unfold R; simpl; auto.
Qed.

(** A [connect] event sets both flags and the state, even when reading
    the payload fails afterwards, and whatever its listeners do. *)
Lemma onEvent_connect_sets (i : info) (s : TcpSocket) (w : World) :
  event i = "connect" ->
  let s' := socket_of (_onEvent i s w) in
  readable s' = true /\ writable s' = true /\ _state s' = CONNECTED.
Proof.
  destruct i as [ev d]. simpl. intros ->.
  unfold _onEvent, bind. rewrite _debug_run. simpl.
  unfold update_this, lift. simpl.
  destruct (get_property d "address") as [a | x]; simpl; [ | auto].
  destruct (get_property d "port") as [p | x]; simpl; [ | auto].
  destruct (get_property d "family") as [f | x]; simpl; [ | auto].
  match goal with
  | |- context [emit ?e ?args ?s1 ?w1] =>
      destruct (emit_keeps_connected e args s1 w1) as (K1 & K2 & K3);
      destruct (emit e args s1 w1) as [[c s2] w2]
  end.
  unfold socket_of in *. simpl in *.
  destruct c; simpl; auto.
Qed.

(** C8 (amended).  An id assigned to a handle is appended to [usedIds]
    by the constructor and is never removed: no action on a handle,
    [destroy()] and [end()] included, changes [usedIds].  So the list
    holds the ids of all the handles ever built, and a client-side
    allocation never returns the id of an earlier handle, released or
    not. *)
Theorem usedIds_only_grows :
  (forall l s w, usedIds (snd (run l (s, w))) = usedIds w)
  /\ (forall fuel o w s w',
        new_TcpSocket fuel o w = Some (s, w') ->
        usedIds w' = (usedIds w ++ [_id s])%list)
  /\ (forall fuel o w s w' l fuel2 s2 w2,
        new_TcpSocket fuel o w = Some (s, w') ->
        new_TcpSocket fuel2 None (snd (run l (s, w'))) = Some (s2, w2) ->
        In (_id s) (usedIds (snd (run l (s, w')))) /\ _id s2 <> _id s).
Proof.
  split; [ | split ].
  - intros l s w. apply (evolves_run l s w).
  - intros fuel o w s w' N. apply (new_TcpSocket_facts fuel o w w' s N).
  - intros fuel o w s w' l fuel2 s2 w2 N N2.
    assert (I : In (_id s) (usedIds (snd (run l (s, w'))))).
    { rewrite (proj1 (evolves_run l s w')).
      rewrite (proj1 (new_TcpSocket_facts fuel o w w' s N)).
      apply in_app_iff. right. left. reflexivity. }
    split; [exact I | ].
    rewrite new_TcpSocket_client in N2.
    destruct (allocate fuel2 (usedIds (snd (run l (s, w'))))
                (random_drawn (snd (run l (s, w'))))) as [[id d] | ] eqn:A;
      [ | discriminate N2].
    apply allocate_fresh in A. destruct A as [Fresh _].
    inversion N2; subst; simpl. intro E. apply Fresh. rewrite E. exact I.
Qed.

(** C9 (amended).  [readable] and [writable] are both false at
    construction and stay so under every action that is not a [connect]
    event; a delivered [connect] event sets both to true (and the state
    to Connected); once true they stay true under every action: [end()],
    [destroy()] and a [close] event leave them true. *)
Theorem readable_writable_lifecycle :
  (forall fuel o w s w',
      new_TcpSocket fuel o w = Some (s, w') ->
      readable s = false /\ writable s = false)
  /\ (forall l s w,
        forallb (fun a => negb (is_connect_event a)) l = true ->
        readable (fst (run l (s, w))) = readable s
        /\ writable (fst (run l (s, w))) = writable s)
  /\ (forall id i s w,
        event i = "connect" ->
        subscribed (_subscription s) id w = true ->
        let s' := socket_of (deliver id i s w) in
        readable s' = true /\ writable s' = true /\ _state s' = CONNECTED)
  /\ (forall l s w,
        readable s = true -> writable s = true ->
        readable (fst (run l (s, w))) = true
        /\ writable (fst (run l (s, w))) = true).
Proof.
  split; [ | split; [ | split ] ].
  - intros fuel o w s w' N.
    destruct (new_TcpSocket_facts fuel o w w' s N) as (_ & R & W & _).
    split; assumption.
  - intros l s w F. apply (keeps_flags_run l s w F).
  - intros id i s w E S. rewrite (deliver_subscribed id i s w S).
    apply onEvent_connect_sets. exact E.
  - intros l s w R W.
    destruct (evolves_run l s w) as (_ & _ & _ & _ & _ & Hr & Hw).
    split; [apply Hr | apply Hw]; assumption.
Qed.

End Lifecycle.

(* ================================================================== *)
(** * Further vocabulary *)
(* ================================================================== *)

(** The id a call on the native module carries. *)
Definition call_id (c : NativeCall) : Z :=
  match c with
  | Sockets_createSocket id => id
  | Sockets_connect id _ _ _ => id
  | Sockets_write id _ _ => id
  | Sockets_end id => id
  | Sockets_destroy id => id
  end.

Definition is_createSocket (c : NativeCall) : bool :=
  match c with Sockets_createSocket _ => true | _ => false end.

(** [Sockets.end] and [Sockets.destroy]: the calls that close the native
    socket. *)
Definition is_teardown_call (c : NativeCall) : bool :=
  match c with Sockets_end _ | Sockets_destroy _ => true | _ => false end.

Definition teardown_calls (cs : list NativeCall) : nat :=
  length (filter is_teardown_call cs).

(** [options.host || 'localhost'] *)
Definition host_or_localhost (o : ConnectOptions) : value :=
  if ToBoolean (host o) then host o else VString "localhost".

(** The function a callback value stands for when it is called: itself,
    or [noop] when the caller gave none. *)
Definition callee (callback : value) : function :=
  match callback with
  | VFunction g => g
  | _ => noop
  end.




(** The calls by which a caller's function arms the idle timer. *)
Definition arms_timer (q : request) : bool :=
  match q with request_setTimeout _ _ => true | _ => false end.

(** What an action on handle [s] may add to the calls on the native
    module: calls carrying the id of [s], never [createSocket], and at
    most one closing call, none once the handle is marked destroyed. *)
Definition issues : change := fun s w s' w' =>
  _id s' = _id s
  /\ (_destroyed s = true -> _destroyed s' = true)
  /\ exists more,
       Sockets w' = (Sockets w ++ more)%list
       /\ Forall (fun c => call_id c = _id s /\ is_createSocket c = false) more
       /\ (teardown_calls more <= if _destroyed s then 0 else 1)%nat
       /\ (teardown_calls more = 1%nat -> _destroyed s' = true).

(** The subscription key of the handle is registered on its own topic
    only. *)
Definition subscription_wf (s : TcpSocket) (w : World) : Prop :=
  forall e, In e (DeviceEventEmitter w) ->
            fst e = _subscription s -> snd e = _id s.

(** No subscription key is above the number of subscriptions made. *)
Definition subscriptions_bounded (w : World) : Prop :=
  forall e, In e (DeviceEventEmitter w) -> (fst e <= subscriptions_made w)%nat.

(** No subscription is added, and the handle keeps its key. *)
Definition unsubscribes_only : change := fun s w s' w' =>
  _subscription s' = _subscription s
  /\ forall e, In e (DeviceEventEmitter w') -> In e (DeviceEventEmitter w).

(** At most one timer is armed, and it is the one kept in [_timeout]. *)
Definition one_timer (s : TcpSocket) (w : World) : Prop :=
  timers w = []
  \/ exists t ms, timers w = [(t, ms)] /\ _timeout s = Some t.

(** Neither the armed timers nor [_timeout] change. *)
Definition keeps_timer : change := fun s w s' w' =>
  timers w' = timers w /\ timers_made w' = timers_made w
  /\ _timeout s' = _timeout s.

(* ================================================================== *)
(** * examples/rctsockets/index.js *)
(* ================================================================== *)

(** [function randomPort() { return Math.random() * 60536 | 0 + 5000 }].
    [+] binds tighter than [|], so this is
    [(Math.random() * 60536) | (0 + 5000)].  [product] is the value of
    [Math.random() * 60536]. *)
Definition randomPort (product : number) : number :=
  ofZ (Z.lor (ToInt32 product) (ToInt32 (ofZ (0 + 5000)))).

(** More sockets and events for the examples. *)
Module Examples.

Import ReferenceHost.

(** [new TcpSocket({ id: 5001 })] in the world of the client socket. *)
Definition accepted : TcpSocket * World :=
  Eval vm_compute in
    match new_TcpSocket 0 (Some (Some 5001)) client_world with
    | Some sw => sw
    | None => (client, client_world)
    end.

(** The established socket with an idle timer of 100 ms. *)
Definition idle : TcpSocket * World :=
  Eval vm_compute in
    run [call_setTimeout (ofZ 100) VUndefined] established.

End Examples.

(* ================================================================== *)
(** * Further properties of connect *)
(* ================================================================== *)

Section Connect_more.

Context {H : Host}.

Lemma once_function_run (ev : string) (g : function) (s : TcpSocket) (w : World) :
  once ev (VFunction g) s w
  = (Return tt, set__events (_events s ++ [one_shot ev g]) s, w).
Proof. reflexivity. Qed.

(** The listener step of [connect]. *)
Lemma connect_registers (cb : value) (s : TcpSocket) (w : World) :
  (if String.eqb (typeof cb) "function" then once "connect" cb else ret tt) s w
  = (Return tt, set__events (_events s ++ registered "connect" cb) s, w).
Proof.
  destruct cb; simpl; try (rewrite app_nil_r, set__events_same; reflexivity).
  reflexivity.
Qed.

(** [connect] on a Disconnected handle, in full. *)
Lemma connect_run (o : ConnectOptions) (cb : value) (s : TcpSocket) (w : World) :
  _state s = DISCONNECTED ->
  connect o cb s w =
  let s1 := set__events (_events s ++ registered "connect" cb) s in
  if ToBoolean (localAddress o) && negb (ipRegex_exact_test (localAddress o))
  then (Throw (new_Error TypeError
                 (quoted "localAddress" ++ " option must be a valid IP: ")
                 [localAddress o]), s1, w)
  else if ToBoolean (localPort o)
          && negb (String.eqb (typeof (localPort o)) "number")
  then (Throw (new_Error TypeError
                 (quoted "localPort" ++ " option should be a number: ")
                 [localPort o]), s1, w)
  else
    match outcome (check_port (port o) s w) with
    | Throw e => (Throw e, s1, w)
    | Return _ =>
        let p := ofZ (Z.lor (ToInt32 (ToNumber (port o)))
                            (ToInt32 (ToNumber (port o)))) in
        (Return tt, set__state CONNECTING s1,
         sent (Sockets_connect (_id s) (host_or_localhost o) p o)
           (debugged [VString "connecting, host:"; host_or_localhost o;
                      VString "port:"; VNumber p] s w))
    end.
Proof.
  intro St. unfold connect, bind, this. rewrite St. cbn [STATE_eqb negb].
  rewrite connect_registers.
  destruct (ToBoolean (localAddress o)
            && negb (ipRegex_exact_test (localAddress o))); [reflexivity | ].
  destruct (ToBoolean (localPort o)
            && negb (String.eqb (typeof (localPort o)) "number"));
    [reflexivity | ].
  rewrite !check_port_outcome. unfold outcome, fst.
  destruct (String.eqb (typeof (port o)) "undefined");
    [ | destruct (negb (String.eqb (typeof (port o)) "number")
                  && negb (String.eqb (typeof (port o)) "string"));
        [ reflexivity | destruct (isLegalPort (port o)); [ | reflexivity ] ] ];
    unfold update_this; rewrite _debug_run; reflexivity.
Qed.

Lemma ToInt32_port (q : Q) (k : Z) :
  0 <= k <= 65535 -> Qeq q (inject_Z k) -> ToInt32 (Finite q) = k.
Proof.
  intros R E. unfold ToInt32, ToUint32.
  rewrite (truncate_inject_Z q k E), Z.mod_small by lia.
  destruct (Z.leb_spec (2 ^ 31) k); [lia | reflexivity].
Qed.

(** X: what [connect] hands to the native module.  On a Disconnected
    handle whose options pass validation, the one command issued carries
    the handle's id, the given host or "localhost" when none is given, the
    options as they came, and the port as an integer: the integer the
    port coerces to (a number or a numeric string alike), and 0 when no
    port is given. *)
Theorem connect_forwards_host_and_port
  (o : ConnectOptions) (cb : value) (s : TcpSocket) (w : World) :
  _state s = DISCONNECTED ->
  local_options_pass o = true ->
  let r := connect o cb s w in
  (port o = VUndefined ->
   outcome r = Return tt
   /\ Sockets (world_of r)
      = (Sockets w
         ++ [Sockets_connect (_id s) (host_or_localhost o) (ofZ 0) o])%list)
  /\ (forall k q,
        typeof (port o) = "number" \/ typeof (port o) = "string" ->
        blank (port o) = false ->
        0 <= k <= 65535 ->
        ToNumber (port o) = Finite q -> Qeq q (inject_Z k) ->
        outcome r = Return tt
        /\ Sockets (world_of r)
           = (Sockets w
              ++ [Sockets_connect (_id s) (host_or_localhost o) (ofZ k) o])%list).
Proof.
  intros St P r. subst r. destruct (local_options_pass_inv o P) as [A B].
  rewrite (connect_run o cb s w St), A, B. cbv zeta.
  split.
  - intro U. rewrite check_port_outcome, U. simpl.
    unfold outcome, world_of, sent. simpl. rewrite Sockets_debugged.
    split; reflexivity.
  - intros k q T Bl R N E.
    assert (L : isLegalPort (port o) = true).
    { destruct (port o) as [ | | | n | t | | | | | | ];
        simpl in T; destruct T as [T | T]; try discriminate T.
      - apply isLegalPort_number. exists k, q. auto.
      - apply isLegalPort_string. split; [exact Bl | ]. exists k, q. auto. }
    assert (C : outcome (check_port (port o) s w) = Return tt).
    { rewrite check_port_outcome. unfold outcome, fst.
      destruct T as [T | T]; rewrite T; simpl; rewrite L; reflexivity. }
    rewrite C, N, (ToInt32_port q k R E), Z.lor_diag.
    unfold outcome, world_of, sent. simpl. rewrite Sockets_debugged.
    split; reflexivity.
Qed.



End Connect_more.

(* ================================================================== *)
(** * Events, listeners and callbacks *)
(* ================================================================== *)

Section Events_more.

Context {H : Host}.










End Events_more.

(* ================================================================== *)
(** * Address, close, and events after teardown *)
(* ================================================================== *)

Section Handle_more.

Context {H : Host}.




Lemma unsubscribes_only_run (l : list action) (s : TcpSocket) (w : World) :
  unsubscribes_only s w (fst (run l (s, w))) (snd (run l (s, w))).
Proof.
  apply within_run;
    try solve [intros; unfold unsubscribes_only, sent, logged; simpl; auto].
  - intros s1 w1 s2 w2 s3 w3 [A1 B1] [A2 B2]. split; [congruence | auto].
  - intros k s0 w0. split; [reflexivity | ]. unfold unsubscribed. simpl.
    intros e I. apply filter_In in I. tauto.
Qed.

Lemma subscribed_In (k : nat) (id : Z) (w : World) :
  subscribed k id w = true <-> In (k, id) (DeviceEventEmitter w).
Proof.
  unfold subscribed. rewrite existsb_exists. split.
  - intros ([k' id'] & I & T). simpl in T. apply andb_true_iff in T.
    destruct T as [T1 T2]. apply Nat.eqb_eq in T1. apply Z.eqb_eq in T2.
    subst. exact I.
  - intro I. exists (k, id). split; [exact I | ]. simpl.
    rewrite Nat.eqb_refl, Z.eqb_refl. reflexivity.
Qed.

(** Once the key of the handle is off a topic, it stays off. *)
Lemma unsubscribed_run (l : list action) (id : Z) (s : TcpSocket) (w : World) :
  subscribed (_subscription s) id w = false ->
  subscribed (_subscription (fst (run l (s, w)))) id (snd (run l (s, w))) = false.
Proof.
  intro U. destruct (unsubscribes_only_run l s w) as [K Sub].
  apply not_true_false. intro T. apply subscribed_In in T.
  rewrite K in T. apply Sub in T. apply subscribed_In in T. congruence.
Qed.

Lemma deliver_unsubscribed (id : Z) (i : info) (s : TcpSocket) (w : World) :
  subscribed (_subscription s) id w = false ->
  deliver id i s w = (Return false, s, w).
Proof. intro U. unfold deliver, bind, this, world. rewrite U. reflexivity. Qed.

(** X: no event reaches a handle after teardown.  After [destroy()], or
    after an [end()] that returned, on a handle that was not destroyed,
    an event posted by the native side on any topic, at any later point,
    does not run the handler: handle and world are left as they are. *)
Theorem no_event_reaches_a_torn_down_handle
  (s : TcpSocket) (w : World) (r : completion unit * TcpSocket * World) :
  _destroyed s = false ->
  (r = destroy s w \/ exists d e, r = end_ d e s w /\ outcome r = Return tt) ->
  forall l id i,
    let s' := fst (run l (socket_of r, world_of r)) in
    let w' := snd (run l (socket_of r, world_of r)) in
    deliver id i s' w' = (Return false, s', w').
Proof.
  intros D C l id i s' w'.
  apply deliver_unsubscribed. apply unsubscribed_run.
  destruct C as [-> | (d & e & -> & R)].
  - rewrite (destroy_live s w D). apply subscribed_unsubscribed.
  - revert R. rewrite (end_live d e s w D).
    pose proof (write_socket d e s w) as Ws.
    destruct (ToBoolean d).
    + destruct (write d e s w) as [[[x | x] s1] w1];
        unfold socket_of in Ws; simpl in Ws; subst s1;
        [intros _ | discriminate].
      apply subscribed_unsubscribed.
    + intros _. apply subscribed_unsubscribed.
Qed.

(** X: events are routed by id.  A handle built in a world whose
    subscription keys are those handed out so far is subscribed to the
    topic of its own id and to no other: an event posted for another id
    is never dispatched to it, whatever happened to the handle in
    between.  Building a handle keeps the keys in order, so this holds
    of every handle built in turn. *)
Theorem events_for_other_ids_are_not_dispatched
  (fuel : nat) (o : option (option Z)) (w0 w : World) (s : TcpSocket) :
  subscriptions_bounded w0 ->
  new_TcpSocket fuel o w0 = Some (s, w) ->
  subscriptions_bounded w
  /\ subscribed (_subscription s) (_id s) w = true
  /\ forall l id i,
       id <> _id s ->
       let s' := fst (run l (s, w)) in
       let w' := snd (run l (s, w)) in
       deliver id i s' w' = (Return false, s', w').
Proof.
  intros B N.
  assert (F : DeviceEventEmitter w
              = (DeviceEventEmitter w0 ++ [(S (subscriptions_made w0), _id s)])%list
              /\ subscriptions_made w = S (subscriptions_made w0)
              /\ _subscription s = S (subscriptions_made w0)).
  { revert N. unfold new_TcpSocket, addListener.
    destruct (match o with
              | Some (Some id) => if Z.eqb id 0 then None else Some id
              | _ => None
              end) as [nid | ];
      [ | destruct (allocate fuel (usedIds w0) (random_drawn w0)) as [[id d] | ];
          [ | discriminate ] ];
      intro E; inversion E; subst; simpl; repeat split. }
  destruct F as (Fd & Fm & Fk).
  split; [ | split ].
  - intros e I. rewrite Fd in I. rewrite Fm. apply in_app_iff in I.
    destruct I as [I | [<- | []]]; [specialize (B e I); lia | simpl; lia].
  - apply (new_TcpSocket_facts fuel o w0 w s N).
  - intros l id i Ne s' w'. apply deliver_unsubscribed. apply unsubscribed_run.
    apply not_true_false. intro T. apply subscribed_In in T.
    rewrite Fd, Fk in T. apply in_app_iff in T.
    destruct T as [I | [E | []]].
    + specialize (B _ I). simpl in B. lia.
    + inversion E. congruence.
Qed.

End Handle_more.

(* ================================================================== *)
(** * Write acknowledgements *)
(* ================================================================== *)

Section Acknowledgement.

Context {H : Host}.

Lemma normalizeError_truthy (err : value) :
  ToBoolean (normalizeError err) = ToBoolean err.
Proof.
  unfold normalizeError. destruct (ToBoolean err) eqn:T; [ | reflexivity].
  destruct err; simpl; try reflexivity; exact T.
Qed.

(** X: [normalizeError] keeps truthiness, is idempotent and never
    returns a string; a value that is not a string comes back as it is
    when truthy and as undefined when falsy. *)
Theorem normalizeError_properties (err : value) :
  ToBoolean (normalizeError err) = ToBoolean err
  /\ normalizeError (normalizeError err) = normalizeError err
  /\ typeof (normalizeError err) <> "string"
  /\ (typeof err <> "string" ->
      normalizeError err = if ToBoolean err then err else VUndefined).
Proof.
  unfold normalizeError. destruct (ToBoolean err) eqn:T.
  - split; [ | split; [ | split ] ].
    + destruct err; simpl; try reflexivity; exact T.
    + destruct err; try discriminate T; simpl in T |- *; rewrite ?T;
        reflexivity.
    + destruct err; simpl; discriminate.
    + intro N. destruct err; try reflexivity. elim N. reflexivity.
  - split; [ | split; [ | split ] ]; try reflexivity.
    simpl. discriminate.
Qed.

(** The closure handed to [Sockets.write], in full. *)
Lemma write_callback_run (cb err : value) (s : TcpSocket) (w : World) :
  write_callback cb err s w =
  let s0 := fst (cleared s w) in
  let w0 := snd (cleared s w) in
  if ToBoolean err
  then call cb [normalizeError err] s0
         (debugged [VString "write failed"; normalizeError err] s0 w0)
  else call cb [] s0 w0.
Proof.
  pose proof (normalizeError_truthy err) as T.
  unfold write_callback, cleared, bind, this.
  destruct (_timeout s) as [t | ]; simpl; rewrite T;
    destruct (ToBoolean err); try reflexivity;
    rewrite _debug_run; reflexivity.
Qed.

(** X: the acknowledgement of a write calls back exactly once.  When the
    native side runs the closure of a [write] whose callback was a
    function or absent, that function (or noop) is called once, and
    nobody else: with no argument when the reported error is falsy, with
    the normalized error otherwise.  No event is emitted.  The idle
    timer the handle held is cleared before the call: it is no longer
    armed and no longer the timer of the handle, whatever the callback
    does.  With a callback that does nothing to the socket, the closure
    returns, the handle has no timer, and nothing is sent to the native
    module. *)
Theorem write_acknowledgement_calls_back_once
  (cb err : value) (s : TcpSocket) (w : World) :
  timers_wf s w ->
  ToBoolean cb = false \/ (exists g, cb = VFunction g) ->
  let r := write_callback (callback_or_noop cb) err s w in
  called (world_of r)
  = (called w
     ++ [(callee cb,
          if ToBoolean err then [normalizeError err] else [])])%list
  /\ emitted (world_of r) = emitted w
  /\ (forall t, _timeout s = Some t ->
        armed t (world_of r) = false /\ _timeout (socket_of r) <> Some t)
  /\ (quiet (callee cb) ->
      outcome r = Return tt
      /\ _timeout (socket_of r) = None
      /\ Sockets (world_of r) = Sockets w
      /\ _state (socket_of r) = _state s
      /\ _destroyed (socket_of r) = _destroyed s).
Proof.
  intros Wf Cb r.
  assert (E : exists g, callback_or_noop cb = VFunction g /\ callee cb = g).
  { unfold callback_or_noop. destruct Cb as [F | [g ->]].
    - rewrite F. exists noop. split; [reflexivity | ].
      destruct cb; simpl in F; try discriminate F; reflexivity.
    - exists g. split; reflexivity. }
  destruct E as (g & Eg & Ec).
  destruct (cleared_facts s w) as (C1 & _ & _ & C4 & C5 & _).
  assert (Cf : _state (fst (cleared s w)) = _state s
               /\ _destroyed (fst (cleared s w)) = _destroyed s
               /\ called (snd (cleared s w)) = called w
               /\ Sockets (snd (cleared s w)) = Sockets w).
  { unfold cleared. destruct (_timeout s); repeat split. }
  destruct Cf as (C2 & C3 & C6 & C7).
  set (args := if ToBoolean err then [normalizeError err] else []).
  set (w0 := if ToBoolean err
             then debugged [VString "write failed"; normalizeError err]
                    (fst (cleared s w)) (snd (cleared s w))
             else snd (cleared s w)).
  assert (Er : r = call (VFunction g) args (fst (cleared s w)) w0).
  { subst r args w0. rewrite write_callback_run, Eg. cbv zeta.
    destruct (ToBoolean err); reflexivity. }
  assert (W0 : called w0 = called w /\ emitted w0 = emitted w
               /\ timers_made w0 = timers_made w
               /\ Sockets w0 = Sockets w
               /\ forall t, _timeout s = Some t -> armed t w0 = false).
  { subst w0. destruct (ToBoolean err).
    - destruct (debugged_fields [VString "write failed"; normalizeError err]
                  (fst (cleared s w)) (snd (cleared s w)))
        as (_ & _ & Dt & Dm & Dc & De & _).
      rewrite Dc, De, Dm, Sockets_debugged.
      repeat split; trivial. intros t T.
      rewrite (armed_same_timers t _ _ Dt). apply cleared_unarmed. exact T.
    - repeat split; trivial. intros t T. apply cleared_unarmed. exact T. }
  destruct W0 as (W1 & W2 & W3 & W4 & W5).
  clearbody w0 args.
  destruct (call_function_logs g args (fst (cleared s w)) w0)
    as (L1 & L2 & _).
  destruct (timers_advance_call (VFunction g) args (fst (cleared s w)) w0)
    as (M0 & T0 & K0).
  rewrite <- Er in L1, L2, M0, T0, K0. rewrite Ec.
  split; [rewrite L1, W1; reflexivity | ].
  split; [rewrite L2; exact W2 | ].
  split.
  - intros t T. destruct Wf as [_ Wf]. specialize (Wf t T). split.
    + apply not_true_false. intro K. apply armed_In in K.
      destruct K as [m I].
      destruct (T0 _ I) as [I0 | F]; [ | cbn [fst] in F; lia].
      assert (A' : armed t w0 = true) by (apply armed_In; exists m; exact I0).
      rewrite (W5 t T) in A'. discriminate A'.
    + intro K. destruct (K0 t K) as [N | F]; [congruence | lia].
  - intro Q. rewrite <- Ec in Q. rewrite Er, call_function.
    rewrite Ec in Q. rewrite (invoke_quiet g args _ _ Q).
    unfold outcome, socket_of, world_of. simpl.
    repeat split; assumption.
Qed.

(** X: [end(data, encoding)] hands [encoding] to [write] as its callback.
    On a live, connected handle, [end] with data and a truthy encoding
    that is not a function (such as "utf8") issues a write command whose
    callback is that encoding; when the native side acknowledges the
    write, the closure clears the timer and then throws a TypeError, the
    encoding not being callable, and calls nobody. *)
Theorem end_passes_encoding_as_write_callback
  (d e : value) (s : TcpSocket) (w : World) :
  _destroyed s = false ->
  _state s <> DISCONNECTED ->
  ToBoolean d = true -> encodable d = true ->
  ToBoolean e = true -> (forall g, e <> VFunction g) ->
  Sockets (world_of (end_ d e s w))
  = (Sockets w
     ++ [Sockets_write (_id s) (wire_encoded d) e; Sockets_end (_id s)])%list
  /\ forall err s' w',
       let r := write_callback e err s' w' in
       (exists text, outcome r = Throw (VError TypeError text [e]))
       /\ called (world_of r) = called w'
       /\ _timeout (socket_of r) = None.
Proof.
  intros D St Td En Te Nf. split.
  - rewrite (end_live d e s w D), Td, (write_accepted d e s w St En).
    unfold ended, world_of, sent, callback_or_noop. simpl.
    rewrite Sockets_debugged. unfold sent. simpl.
    rewrite Sockets_write_logged, Te, <- app_assoc. reflexivity.
  - intros err s' w' r. subst r. rewrite write_callback_run. cbv zeta.
    destruct (cleared_facts s' w') as (C1 & _).
    assert (C4 : called (snd (cleared s' w')) = called w').
    { unfold cleared. destruct (_timeout s'); reflexivity. }
    assert (Ca : forall args s0 w0,
               call e args s0 w0
               = (Throw (new_Error TypeError "is not a function: " [e]), s0, w0)).
    { intros args s0 w0. destruct e; try reflexivity.
      elim (Nf f). reflexivity. }
    destruct (ToBoolean err); rewrite Ca; unfold outcome, socket_of, world_of;
      simpl.
    + destruct (debugged_fields [VString "write failed"; normalizeError err]
                  (fst (cleared s' w')) (snd (cleared s' w')))
        as (_ & _ & _ & _ & Dc & _).
      rewrite Dc. split; [eexists; reflexivity | split; assumption].
    + split; [eexists; reflexivity | split; assumption].
Qed.

End Acknowledgement.

(* ================================================================== *)
(** * The constructor *)
(* ================================================================== *)

Section Constructor_more.

Context {H : Host}.

(** X: a handle for a socket the native side created.  With a non-zero
    [options.id] the constructor always returns, without drawing a random
    id and without a [createSocket] call, whatever ids are in use: the
    id may already be in the list and is appended again.  The handle is
    Connected but neither readable nor writable, subscribed to the topic
    of its id; [connect] on it is refused, and [write] is accepted at
    once.  An [options.id] of 0 counts as absent. *)
Theorem native_socket_construction (id : Z) (fuel : nat) (w : World) :
  id <> 0 ->
  (exists s w',
      new_TcpSocket fuel (Some (Some id)) w = Some (s, w')
      /\ _id s = id
      /\ _state s = CONNECTED
      /\ readable s = false /\ writable s = false
      /\ usedIds w' = (usedIds w ++ [id])%list
      /\ random_drawn w' = random_drawn w
      /\ Sockets w' = Sockets w
      /\ subscribed (_subscription s) id w' = true
      /\ (forall o cb,
            connect o cb s w'
            = (Throw (new_Error Error "Socket is already bound" []), s, w'))
      /\ (forall b cb,
            encodable b = true ->
            outcome (write b cb s w') = Return true))
  /\ new_TcpSocket fuel (Some (Some 0)) w = new_TcpSocket fuel None w
  /\ new_TcpSocket fuel (Some None) w = new_TcpSocket fuel None w.
Proof.
  intro Nz. split; [ | split; reflexivity ].
  apply Z.eqb_neq in Nz.
  unfold new_TcpSocket, addListener. rewrite Nz.
  eexists. eexists. split; [reflexivity | ]. simpl.
  repeat (split; [reflexivity | ]).
  split; [ | split ].
  - unfold subscribed. simpl. rewrite existsb_app. simpl.
    rewrite Nat.eqb_refl, Z.eqb_refl. apply orb_true_r.
  - intros o cb. apply connect_bound. simpl. discriminate.
  - intros b cb En. rewrite write_accepted; [reflexivity | | exact En].
    simpl. discriminate.
Qed.

(** X: a client handle as the constructor leaves it.  When
    [new TcpSocket()] returns, the id of the handle is between 1 and 1000
    and was not in use; it is appended to the ids in use, which stay
    free of duplicates if they were; the handle is Disconnected, not
    destroyed, with no timer; and exactly one [createSocket] call
    carrying the id was made. *)
Theorem client_socket_construction
  (fuel : nat) (w w' : World) (s : TcpSocket) :
  new_TcpSocket fuel None w = Some (s, w') ->
  1 <= _id s <= 1000
  /\ ~ In (_id s) (usedIds w)
  /\ usedIds w' = (usedIds w ++ [_id s])%list
  /\ (NoDup (usedIds w) -> NoDup (usedIds w'))
  /\ _state s = DISCONNECTED
  /\ _destroyed s = false
  /\ _timeout s = None
  /\ Sockets w' = (Sockets w ++ [Sockets_createSocket (_id s)])%list
  /\ (random_drawn w < random_drawn w')%nat.
Proof.
  rewrite new_TcpSocket_client.
  destruct (allocate fuel (usedIds w) (random_drawn w)) as [[id d] | ] eqn:A;
    [ | discriminate ].
  apply allocate_fresh in A. destruct A as (Fr & Rg & Dr).
  intro E. inversion E; subst; simpl.
  repeat split; trivial; try lia.
  intro Nd. apply NoDup_app; [exact Nd | constructor; [tauto | constructor] | ].
  intros x I [<- | []]. exact (Fr I).
Qed.

End Constructor_more.

(* ================================================================== *)
(** * Calls on the native module *)
(* ================================================================== *)

Section Native_calls.

Context {H : Host}.

Lemma issues_nothing (s s' : TcpSocket) (w w' : World) :
  _id s' = _id s ->
  (_destroyed s = true -> _destroyed s' = true) ->
  Sockets w' = Sockets w ->
  issues s w s' w'.
Proof.
  intros I D E. split; [exact I | split; [exact D | ] ].
  exists []. rewrite app_nil_r. split; [exact E | split; [constructor | ] ].
  unfold teardown_calls. simpl.
  split; [destruct (_destroyed s); lia | discriminate].
Qed.

Lemma issues_refl (s : TcpSocket) (w : World) : issues s w s w.
Proof. apply issues_nothing; auto. Qed.

Lemma teardown_calls_app (a b : list NativeCall) :
  teardown_calls (a ++ b) = (teardown_calls a + teardown_calls b)%nat.
Proof. unfold teardown_calls. rewrite filter_app, length_app. reflexivity. Qed.

Lemma issues_trans s1 w1 s2 w2 s3 w3 :
  issues s1 w1 s2 w2 -> issues s2 w2 s3 w3 -> issues s1 w1 s3 w3.
Proof.
  intros (I1 & D1 & m1 & E1 & F1 & T1 & K1) (I2 & D2 & m2 & E2 & F2 & T2 & K2).
  split; [congruence | split; [auto | ] ].
  exists (m1 ++ m2)%list.
  split; [rewrite E2, E1, app_assoc; reflexivity | ].
  split.
  - apply Forall_app. split; [exact F1 | ].
    rewrite I1 in F2. exact F2.
  - rewrite teardown_calls_app.
    destruct (_destroyed s1) eqn:Ds1.
    + rewrite (D1 eq_refl) in T2. split; [lia | lia].
    + destruct (_destroyed s2) eqn:Ds2.
      * split; [lia | intros _; apply D2; reflexivity].
      * split; [ | intro E ].
        -- destruct (Nat.eq_dec (teardown_calls m1) 1) as [E | E];
             [apply K1 in E; discriminate E | lia].
        -- destruct (Nat.eq_dec (teardown_calls m1) 1) as [E' | E'];
             [apply K1 in E'; discriminate E' | apply K2; lia].
Qed.

Lemma issues_one (c : NativeCall) (s s' : TcpSocket) (w w' : World) :
  _id s' = _id s ->
  (_destroyed s = true -> _destroyed s' = true) ->
  Sockets w' = (Sockets w ++ [c])%list ->
  call_id c = _id s -> is_createSocket c = false ->
  is_teardown_call c = false ->
  issues s w s' w'.
Proof.
  intros I D E Ci Cc Ct. split; [exact I | split; [exact D | ] ].
  exists [c]. split; [exact E | split; [repeat constructor; assumption | ] ].
  unfold teardown_calls. simpl. rewrite Ct. simpl.
  split; [destruct (_destroyed s); lia | discriminate].
Qed.

Ltac issues_prim :=
  intros; apply issues_nothing; unfold logged, disarmed; simpl; auto.

Lemma issues_connect o cb : within issues (connect o cb).
Proof.
  intros s w. destruct (STATE_eqb (_state s) DISCONNECTED) eqn:St.
  - apply STATE_eqb_eq in St. rewrite (connect_run o cb s w St). cbv zeta.
    destruct (ToBoolean (localAddress o)
              && negb (ipRegex_exact_test (localAddress o)));
      [apply issues_nothing; auto | ].
    destruct (ToBoolean (localPort o)
              && negb (String.eqb (typeof (localPort o)) "number"));
      [apply issues_nothing; auto | ].
    destruct (outcome (check_port (port o) s w));
      [ | apply issues_nothing; auto ].
    eapply issues_one;
      [ reflexivity | auto
      | unfold world_of, sent; simpl; rewrite Sockets_debugged; reflexivity
      | reflexivity .. ].
  - apply STATE_eqb_neq in St. rewrite (connect_bound o cb s w St).
    apply issues_refl.
Qed.

Lemma issues_write b cb : within issues (write b cb).
Proof.
  intros s w. destruct (STATE_eqb (_state s) DISCONNECTED) eqn:St.
  - apply STATE_eqb_eq in St. rewrite (write_disconnected b cb s w St).
    apply issues_refl.
  - apply STATE_eqb_neq in St. destruct (encodable b) eqn:En.
    + rewrite (write_accepted b cb s w St En).
      eapply issues_one;
        [ reflexivity | auto
        | unfold world_of, sent; simpl; rewrite Sockets_write_logged;
          reflexivity
        | reflexivity .. ].
    + rewrite (write_rejected b cb s w St En). apply issues_refl.
Qed.

Lemma issues_teardown (c : NativeCall) (s : TcpSocket) (w w' : World) :
  _destroyed s = false ->
  Sockets w' = (Sockets w ++ [c])%list ->
  call_id c = _id s -> is_teardown_call c = true ->
  issues s w (set__destroyed true s) w'.
Proof.
  intros D E Ci Ct. split; [reflexivity | split; [reflexivity | ] ].
  exists [c]. split; [exact E | ].
  split; [repeat constructor; [exact Ci | destruct c; try discriminate Ct; reflexivity] | ].
  unfold teardown_calls. simpl. rewrite Ct, D. simpl. split; [lia | reflexivity].
Qed.

Lemma issues_destroy : within issues destroy.
Proof.
  intros s w. destruct (_destroyed s) eqn:D.
  - rewrite (destroy_destroyed s w D). apply issues_refl.
  - rewrite (destroy_live s w D).
    eapply issues_teardown;
      [ exact D
      | unfold world_of, sent, unsubscribed; simpl; rewrite Sockets_debugged;
        reflexivity
      | reflexivity .. ].
Qed.

Lemma issues_end d e : within issues (end_ d e).
Proof.
  intros s w. destruct (_destroyed s) eqn:D.
  - rewrite (end_destroyed d e s w D). apply issues_refl.
  - rewrite (end_live d e s w D). destruct (ToBoolean d).
    + pose proof (issues_write d e s w) as Iw.
      pose proof (write_socket d e s w) as Ws.
      destruct (write d e s w) as [[[x | x] s1] w1];
        unfold socket_of, world_of in *; simpl in *; subst s1;
        [ | exact Iw].
      apply issues_trans with s w1; [exact Iw | ].
      eapply issues_teardown;
        [ exact D
        | unfold sent, unsubscribed; simpl; rewrite Sockets_debugged;
          reflexivity
        | reflexivity .. ].
    + eapply issues_teardown;
        [ exact D
        | unfold ended, world_of, sent, unsubscribed; simpl;
          rewrite Sockets_debugged; reflexivity
        | reflexivity .. ].
Qed.

Lemma issues_setTimeout ms cb : within issues (setTimeout ms cb).
Proof.
  apply within_setTimeout;
    [exact issues_refl | exact issues_trans | issues_prim ..].
Qed.

Lemma issues_address : within issues address.
Proof.
  intros s w. apply issues_refl.
Qed.

Lemma issues_invoke g args : within issues (invoke g args).
Proof.
  apply within_invoke_methods;
    first [ exact issues_refl | exact issues_trans | exact issues_connect
          | exact issues_write | exact issues_end | exact issues_destroy
          | exact issues_setTimeout | exact issues_address | issues_prim ].
Qed.

Lemma issues_run l :
  forall s w, issues s w (fst (run l (s, w))) (snd (run l (s, w))).
Proof.
  apply through_run;
    first [ exact issues_refl | exact issues_trans | exact issues_invoke
          | exact issues_connect
          | exact issues_write | exact issues_end | exact issues_destroy
          | exact issues_setTimeout | exact issues_address | issues_prim ].
Qed.


(** X: a handle only talks about itself.  Whatever is done to a handle,
    every call it adds on the native module carries the handle's own id,
    earlier calls are left in place, and [createSocket] is never called
    again after construction. *)
Theorem commands_carry_the_id_of_the_handle
  (l : list action) (s : TcpSocket) (w : World) :
  exists more,
    Sockets (snd (run l (s, w))) = (Sockets w ++ more)%list
    /\ Forall (fun c => call_id c = _id s /\ is_createSocket c = false) more.
Proof.
  destruct (issues_run l s w) as (_ & _ & more & E & F & _).
  exists more. split; assumption.
Qed.

(** X: the native socket is closed at most once.  Over any sequence of
    actions on a handle, [Sockets.end] and [Sockets.destroy] together are
    called at most once, and not at all when the handle is already marked
    destroyed; once one of them was called the handle is marked. *)
Theorem native_socket_is_closed_at_most_once
  (l : list action) (s : TcpSocket) (w : World) :
  exists more,
    Sockets (snd (run l (s, w))) = (Sockets w ++ more)%list
    /\ (teardown_calls more <= if _destroyed s then 0 else 1)%nat
    /\ (teardown_calls more = 1%nat ->
        _destroyed (fst (run l (s, w))) = true).
Proof.
  destruct (issues_run l s w) as (_ & _ & more & E & _ & T & K).
  exists more. split; [exact E | split; assumption].
Qed.

End Native_calls.

(* ================================================================== *)
(** * More on the idle timer *)
(* ================================================================== *)

Section Timer_more.

Context {H : Host}.




(** ** At most one timer *)

Lemma one_timer_same (s s' : TcpSocket) (w w' : World) :
  timers w' = timers w -> _timeout s' = _timeout s ->
  one_timer s w -> one_timer s' w'.
Proof. unfold one_timer. intros -> ->. auto. Qed.

Lemma one_timer_cleared (s : TcpSocket) (w : World) :
  one_timer s w ->
  timers (snd (cleared s w)) = [] /\ _timeout (fst (cleared s w)) = None.
Proof.
  unfold cleared.
  intros [E | (t & ms & E & T)].
  - destruct (_timeout s) eqn:T; simpl; rewrite ?E, ?T; split; reflexivity.
  - rewrite T. simpl. rewrite E. simpl. rewrite Nat.eqb_refl. simpl.
    split; reflexivity.
Qed.

Lemma keeps_timer_refl (s : TcpSocket) (w : World) : keeps_timer s w s w.
Proof. unfold keeps_timer. auto. Qed.

Lemma keeps_timer_trans s1 w1 s2 w2 s3 w3 :
  keeps_timer s1 w1 s2 w2 -> keeps_timer s2 w2 s3 w3 -> keeps_timer s1 w1 s3 w3.
Proof. unfold keeps_timer. intuition congruence. Qed.

Ltac kt_prim :=
  intros; unfold keeps_timer, sent, unsubscribed, logged; simpl; auto.

Section No_rearming.

(** Functions that never call [setTimeout] on the socket. *)
Hypothesis no_function_arms_timer :
  forall name args s w,
    forallb (fun q => negb (arms_timer q))
            (requests (behaviour name args s w)) = true.

Lemma keeps_timer_invoke g args : within keeps_timer (invoke g args).
Proof.
  apply within_invoke_of;
    [exact keeps_timer_refl | exact keeps_timer_trans | ].
  intros name s w q _ I.
  pose proof (no_function_arms_timer name args s w) as N.
  rewrite forallb_forall in N. specialize (N q I).
  destruct q; simpl in N; try discriminate N; simpl.
  - apply within_connect;
      [exact keeps_timer_refl | exact keeps_timer_trans | kt_prim ..].
  - apply (within_bind keeps_timer keeps_timer_trans);
      [ | intro; apply (within_ret keeps_timer keeps_timer_refl)].
    apply within_write;
      [exact keeps_timer_refl | exact keeps_timer_trans | kt_prim ..].
  - apply within_end;
      [exact keeps_timer_refl | exact keeps_timer_trans | kt_prim ..].
  - apply within_destroy;
      [exact keeps_timer_refl | exact keeps_timer_trans | kt_prim ..].
  - apply (within_bind keeps_timer keeps_timer_trans);
      [ | intro; apply (within_ret keeps_timer keeps_timer_refl)].
    intros s0 w0. apply keeps_timer_refl.
  - apply within_on;
      [exact keeps_timer_refl | kt_prim ..].
  - apply within_once;
      [exact keeps_timer_refl | kt_prim ..].
Qed.

Lemma keeps_timer_emit ev args : within keeps_timer (emit ev args).
Proof.
  apply through_emit;
    first [ exact keeps_timer_refl | exact keeps_timer_trans
          | exact keeps_timer_invoke | kt_prim ].
Qed.

Lemma keeps_timer_call f args : within keeps_timer (call f args).
Proof.
  apply through_call;
    first [ exact keeps_timer_refl | exact keeps_timer_trans
          | exact keeps_timer_invoke | kt_prim ].
Qed.

(** The armed function leaves the armed timers as they are. *)
Lemma timeout_callback_timers (s : TcpSocket) (w : World) :
  timers (world_of (timeout_callback s w)) = timers w.
Proof.
  set (R := fun (s : TcpSocket) (w : World) (s' : TcpSocket) (w' : World) =>
              timers w' = timers w).
  assert (Ki : forall g a, within R (invoke g a)).
  { intros g a s0 w0. apply (keeps_timer_invoke g a s0 w0). }
  apply (through_timeout_callback R);
    try exact Ki; try solve [intros; unfold R; simpl; congruence].
  apply within_destroy;
    intros; unfold R, sent, unsubscribed, logged; simpl; congruence.
Qed.

(** The handler, as far as timers go: a [data] event clears the timer
    the handle holds, any other event leaves timers alone. *)
Lemma onEvent_timer (i : info) (s : TcpSocket) (w : World) :
  let r := _onEvent i s w in
  timers (world_of r)
  = (if String.eqb (event i) "data" then timers (snd (cleared s w)) else timers w)
  /\ _timeout (socket_of r)
     = (if String.eqb (event i) "data"
        then _timeout (fst (cleared s w)) else _timeout s).
Proof.
  destruct i as [ev d]. cbv zeta. simpl.
  assert (Em : forall args s1 w1,
             timers (world_of (emit ev args s1 w1)) = timers w1
             /\ _timeout (socket_of (emit ev args s1 w1)) = _timeout s1).
  { intros args s1 w1. destruct (keeps_timer_emit ev args s1 w1) as (A & _ & B).
    split; assumption. }
  assert (Dt : forall a s1, timers (debugged a s1 w) = timers w).
  { intros a s1. apply (debugged_fields a s1 w). }
  unfold _onEvent, bind. rewrite _debug_run. simpl.
  destruct (String.eqb ev "connect") eqn:E1.
  - apply String.eqb_eq in E1. subst ev. simpl.
    unfold bind, update_this, lift. simpl.
    destruct (get_property d "address") as [a | x]; simpl;
      [ | unfold socket_of, world_of; simpl; rewrite Dt; split; reflexivity].
    destruct (get_property d "port") as [p | x]; simpl;
      [ | unfold socket_of, world_of; simpl; rewrite Dt; split; reflexivity].
    destruct (get_property d "family") as [f | x]; simpl;
      [ | unfold socket_of, world_of; simpl; rewrite Dt; split; reflexivity].
    match goal with
    | |- context [emit ?e ?args ?s1 ?w1] =>
        destruct (Em args s1 w1) as [A B];
        unfold socket_of, world_of in *;
        destruct (emit e args s1 w1) as [[c s2] w2]
    end.
    simpl in *. destruct c; simpl; rewrite A, B, Dt; split; reflexivity.
  - destruct (String.eqb ev "data") eqn:E2.
    + unfold bind, this, lift, cleared. simpl.
      destruct (_timeout s) as [t | ] eqn:T; simpl;
        (destruct (if negb Buffer_defined
                   then base64_toByteArray d else Buffer_from_base64 d)
           as [v | x]; simpl;
         [ match goal with
           | |- context [emit ?e ?args ?s1 ?w1] =>
               destruct (Em args s1 w1) as [A B];
               unfold socket_of, world_of in *;
               destruct (emit e args s1 w1) as [[c s2] w2]
           end;
           simpl in *; destruct c; simpl; rewrite A, B
         | unfold socket_of, world_of; simpl ]);
        unfold disarmed, debugged; simpl; destruct __DEV__; simpl;
        rewrite ?T; split; reflexivity.
    + destruct (String.eqb ev "close") eqn:E3;
        unfold bind, update_this, ret; simpl;
        match goal with
        | |- context [emit ?e ?args ?s1 ?w1] =>
            destruct (Em args s1 w1) as [A B];
            unfold socket_of, world_of in *;
            destruct (emit e args s1 w1) as [[c s2] w2]
        end;
        simpl in *; destruct c; simpl; rewrite A, B, Dt; split; reflexivity.
Qed.

Lemma one_timer_perform (a : action) (s : TcpSocket) (w : World) :
  one_timer s w ->
  one_timer (fst (perform a (s, w))) (snd (perform a (s, w))).
Proof.
  intro O.
  assert (Keep : forall (r : TcpSocket * World),
             keeps_timer s w (fst r) (snd r) -> one_timer (fst r) (snd r)).
  { intros r (K1 & _ & K3). apply (one_timer_same s (fst r) w (snd r) K1 K3 O). }
  destruct (one_timer_cleared s w O) as [Ct Cs].
  destruct a as [o cb | b cb | d e | | ms cb | | id i | t | cb err]; simpl.
  - assert (K : within keeps_timer (connect o cb)).
    { apply within_connect;
        [exact keeps_timer_refl | exact keeps_timer_trans | kt_prim ..]. }
    apply (Keep (forget (connect o cb) s w)). exact (K s w).
  - assert (K : within keeps_timer (write b cb)).
    { apply within_write;
        [exact keeps_timer_refl | exact keeps_timer_trans | kt_prim ..]. }
    apply (Keep (forget (write b cb) s w)). exact (K s w).
  - assert (K : within keeps_timer (end_ d e)).
    { apply within_end;
        [exact keeps_timer_refl | exact keeps_timer_trans | kt_prim ..]. }
    apply (Keep (forget (end_ d e) s w)). exact (K s w).
  - assert (K : within keeps_timer destroy).
    { apply within_destroy;
        [exact keeps_timer_refl | exact keeps_timer_trans | kt_prim ..]. }
    apply (Keep (forget destroy s w)). exact (K s w).
  - unfold forget. rewrite setTimeout_run. cbv zeta.
    destruct (number_gt ms (ofZ 0));
      [ | left; exact Ct ].
    destruct (ToBoolean cb);
      [ destruct cb; try (left; exact Ct) | ];
      right; unfold socket_of, world_of, arming; simpl; rewrite Ct;
      eexists; eexists; split; reflexivity.
  - apply (Keep (forget address s w)). apply keeps_timer_refl.
  - unfold forget, deliver, bind, this, world.
    destruct (subscribed (_subscription s) id w); [ | exact O].
    destruct (onEvent_timer i s w) as [A B]. unfold one_timer.
    rewrite A, B. destruct (String.eqb (event i) "data").
    + left. exact Ct.
    + exact O.
  - unfold forget. destruct (armed t w) eqn:A.
    + rewrite (expire_armed t s w A).
      left. rewrite timeout_callback_timers. simpl.
      destruct O as [E | (t0 & ms & E & T)]; rewrite E; [reflexivity | ].
      apply armed_In in A. destruct A as [m I]. rewrite E in I.
      destruct I as [I | []]. inversion I; subst. simpl.
      rewrite Nat.eqb_refl. reflexivity.
    + rewrite (expire_unarmed t s w A). exact O.
  - unfold forget. rewrite write_callback_run. cbv zeta.
    left.
    destruct (ToBoolean err).
    + destruct (keeps_timer_call cb [normalizeError err] (fst (cleared s w))
                  (debugged [VString "write failed"; normalizeError err]
                     (fst (cleared s w)) (snd (cleared s w)))) as (K & _).
      rewrite K. destruct (debugged_fields
                             [VString "write failed"; normalizeError err]
                             (fst (cleared s w)) (snd (cleared s w)))
        as (_ & _ & Dt & _).
      rewrite Dt. exact Ct.
    + destruct (keeps_timer_call cb [] (fst (cleared s w)) (snd (cleared s w)))
        as (K & _).
      rewrite K. exact Ct.
Qed.

Lemma one_timer_run (l : list action) :
  forall s w,
    one_timer s w ->
    one_timer (fst (run l (s, w))) (snd (run l (s, w))).
Proof.
  induction l as [ | a l IH]; intros s w O; [exact O | ].
  rewrite run_cons.
  pose proof (one_timer_perform a s w O) as P.
  destruct (perform a (s, w)) as [s1 w1]. apply IH. exact P.
Qed.

End No_rearming.

(** X: a handle never has two idle timers pending, as long as no
    callback or listener calls [setTimeout] on the socket.  Starting from
    a handle with no timer armed, or with the one kept in [_timeout],
    every sequence of actions then leaves at most one timer armed, and
    it is the one kept in [_timeout].  (A [timeout] listener that calls
    [setTimeout] arms a timer whose handle the armed function then
    drops.) *)
Theorem at_most_one_idle_timer (l : list action) :
  (forall name args s w,
      forallb (fun q => negb (arms_timer q))
              (requests (behaviour name args s w)) = true) ->
  forall s w,
    one_timer s w ->
    one_timer (fst (run l (s, w))) (snd (run l (s, w)))
    /\ (length (timers (snd (run l (s, w)))) <= 1)%nat.
Proof.
  intros N s w O.
  pose proof (one_timer_run N l s w O) as Inv.
  split; [exact Inv | ].
  destruct Inv as [E | (t & ms & E & _)]; rewrite E; simpl; lia.
Qed.

End Timer_more.

(* ================================================================== *)
(** * examples/rctsockets/index.js *)
(* ================================================================== *)

Lemma lor_bounds (n m : Z) :
  0 <= n < 2 ^ 16 -> 0 <= m < 2 ^ 16 -> m <= Z.lor n m < 2 ^ 16.
Proof.
  intros Hn Hm.
  assert (L : 0 <= Z.land n m) by (apply Z.land_nonneg; left; lia).
  assert (U : Z.land n m <= n).
  { rewrite <- (Z2N.id n), <- (Z2N.id m) by lia. rewrite <- N2Z.inj_land.
    apply N2Z.inj_le. apply N.land_le_l. }
  pose proof (Zbitwise.Z.add_lor_land n m) as A.
  split; [lia | ].
  assert (N0 : 0 <= Z.lor n m) by (apply Z.lor_nonneg; lia).
  destruct (Z.eq_dec (Z.lor n m) 0) as [E | E]; [rewrite E; lia | ].
  apply Z.log2_lt_pow2; [lia | ].
  rewrite Z.log2_lor by lia.
  apply Z.max_lub_lt.
  - destruct (Z.eq_dec n 0) as [-> | ]; [simpl; lia | apply Z.log2_lt_pow2; lia].
  - destruct (Z.eq_dec m 0) as [-> | ]; [simpl; lia | apply Z.log2_lt_pow2; lia].
Qed.

Lemma land_lor_absorb (n m : Z) : Z.land (Z.lor n m) m = m.
Proof.
  apply Z.bits_inj'. intros i Hi.
  rewrite Z.land_spec, Z.lor_spec.
  destruct (Z.testbit n i), (Z.testbit m i); reflexivity.
Qed.

(** X: [randomPort()] always yields a legal port, but not any port.
    Whatever [Math.random()] returns, the result is an integer from 5000
    to 65535, so [connect] never rejects it; since the expression is
    [(Math.random() * 60536) | 5000], every bit of 5000 is set in the
    result. *)
Theorem randomPort_is_a_legal_port (q : Q) :
  Qle 0 q -> Qlt q (inject_Z 60536) ->
  exists k,
    randomPort (Finite q) = ofZ k
    /\ 5000 <= k <= 65535
    /\ Z.land k 5000 = 5000
    /\ isLegalPort (VNumber (randomPort (Finite q))) = true.
Proof.
  intros Lo Hi.
  assert (B : 0 <= truncate q < 60536).
  { unfold truncate. unfold Qle in Lo. unfold Qlt in Hi. simpl in Lo, Hi.
    rewrite Z.mul_1_r in Lo, Hi.
    rewrite Z.quot_div_nonneg by lia.
    split; [apply Z.div_pos; lia | ].
    apply Z.div_lt_upper_bound; lia. }
  assert (T : ToInt32 (Finite q) = truncate q).
  { unfold ToInt32, ToUint32. rewrite Z.mod_small by lia.
    destruct (Z.leb_spec (2 ^ 31) (truncate q)); [lia | reflexivity]. }
  assert (F : ToInt32 (ofZ (0 + 5000)) = 5000) by reflexivity.
  unfold randomPort. rewrite T, F.
  destruct (lor_bounds (truncate q) 5000) as [K1 K2]; [lia | lia | ].
  exists (Z.lor (truncate q) 5000).
  split; [reflexivity | split; [lia | split; [apply land_lor_absorb | ] ] ].
  apply isLegalPort_number.
  exists (Z.lor (truncate q) 5000), (inject_Z (Z.lor (truncate q) 5000)).
  split; [lia | split; [reflexivity | apply Qeq_refl] ].
Qed.

(* ================================================================== *)
(** * Concrete runs on the reference host *)
(* ================================================================== *)

#[local] Existing Instance ReferenceHost.instance.

(** A port of 80 given as a string, on the freshly built client socket. *)
Lemma connect_port_validation_witness :
  _state ReferenceHost.client = DISCONNECTED
  /\ local_options_pass (ReferenceHost.port_only (VString "80")) = true
  /\ outcome (connect (ReferenceHost.port_only (VString "80")) VUndefined
                ReferenceHost.client ReferenceHost.client_world) = Return tt.
Proof.
  split; [reflexivity | split; [reflexivity | ] ].
  apply (connect_port_validation
           (ReferenceHost.port_only (VString "80")) VUndefined
           ReferenceHost.client ReferenceHost.client_world
           eq_refl eq_refl).
  right. reflexivity.
Defined.

(** C1, as stated, fails at [port = "abc"]: a string passes the type test,
    so the failure is the RangeError, not the TypeError.  And the port is
    looked at only on a Disconnected handle: on the established socket a
    port of [true] is not reached, the error is "Socket is already
    bound". *)
Lemma port_abc_is_not_a_type_error :
  (let r := outcome (connect (ReferenceHost.port_only (VString "abc")) VUndefined
                       ReferenceHost.client ReferenceHost.client_world) in
   r = Throw (port_RangeError (VString "abc"))
   /\ r <> Throw (port_TypeError (VString "abc")))
  /\ outcome (connect (ReferenceHost.port_only (VBoolean true)) VUndefined
                (fst ReferenceHost.established) (snd ReferenceHost.established))
     = Throw (new_Error Error "Socket is already bound" []).
Proof.
  split; [ | reflexivity ].
  split; [reflexivity | ].
  intro E. vm_compute in E. discriminate E.
Qed.

Lemma crowded_world_exhausted : exhausted (usedIds ReferenceHost.crowded_world).
Proof.
  intros id R. unfold ReferenceHost.crowded_world.
  change (In id (map Z.of_nat (seq 1 1000))). apply in_map_iff.
  exists (Z.to_nat id). split; [lia | ]. apply in_seq. lia.
Qed.

(** The first client socket of a process, and a process with no id left. *)
Lemma client_allocation_witness :
  new_TcpSocket 1 None empty_World
    = Some (ReferenceHost.client, ReferenceHost.client_world)
  /\ forall fuel, new_TcpSocket fuel None ReferenceHost.crowded_world = None.
Proof.
  split.
  - destruct (proj2 (client_allocation empty_World) 0%nat) with (fuel := 1%nat)
      as (s & w' & E & _).
    + intros j Hj. lia.
    + simpl. tauto.
    + lia.
    + rewrite E. vm_compute in E. inversion E. reflexivity.
  - apply (proj1 (client_allocation ReferenceHost.crowded_world)).
    exact crowded_world_exhausted.
Defined.

(** C2, as stated, fails when the ids 1..1000 are all in use: no number
    of retries ends the constructor, with an error or otherwise. *)
Lemma crowded_allocation_never_ends :
  ~ exists fuel r, new_TcpSocket fuel None ReferenceHost.crowded_world = Some r.
Proof.
  intros (fuel & r & E).
  rewrite new_TcpSocket_client in E.
  rewrite (allocate_exhausted _ crowded_world_exhausted) in E.
  discriminate E.
Qed.

Import ReferenceHost.

Example client_is_constructed :
  new_TcpSocket 1 None empty_World = Some (client, client_world).
Proof. reflexivity. Qed.

Example established_is_connected :
  _state (fst established) = CONNECTED
  /\ readable (fst established) = true
  /\ _port (fst established) = VNumber (ofZ 8080)
  /\ Sockets (snd established)
     = [Sockets_createSocket 1;
        Sockets_connect 1 (VString "localhost") (ofZ 80)
                        (port_only (VNumber (ofZ 80)))].
Proof. repeat split. Qed.

(** [connect] on the fresh client succeeds; on the established socket it
    is refused. *)
Lemma connect_only_when_disconnected_witness :
  outcome (connect (port_only (VNumber (ofZ 80))) VUndefined
             client client_world) = Return tt
  /\ connect (port_only (VNumber (ofZ 80))) VUndefined
       (fst established) (snd established)
     = (Throw (new_Error Error "Socket is already bound" []),
        fst established, snd established).
Proof.
  split.
  - apply (proj2 (proj2 (connect_only_when_disconnected
                           (port_only (VNumber (ofZ 80))) VUndefined
                           client client_world))); reflexivity.
  - apply (proj1 (connect_only_when_disconnected
                    (port_only (VNumber (ofZ 80))) VUndefined
                    (fst established) (snd established))).
    simpl. discriminate.
Defined.

(** "hi" written on the established socket, and on the fresh client. *)
Lemma write_by_state_and_payload_witness :
  (outcome (write (VString "hi") VUndefined (fst established) (snd established))
   = Return true
   /\ Sockets (world_of (write (VString "hi") VUndefined
                           (fst established) (snd established)))
      = (Sockets (snd established)
         ++ [Sockets_write 1 "aGk=" (VFunction noop)])%list)
  /\ write (VString "hi") VUndefined client client_world
     = (Throw (new_Error Error "Socket is not connected." []),
        client, client_world)
  /\ write (VNumber (ofZ 7)) VUndefined (fst established) (snd established)
     = (Throw (new_Error Error "invalid message format" []),
        fst established, snd established).
Proof.
  pose proof (write_by_state_and_payload (VString "hi") VUndefined
                (fst established) (snd established)) as (_ & A & _).
  pose proof (write_by_state_and_payload (VString "hi") VUndefined
                client client_world) as (D & _ & _).
  pose proof (write_by_state_and_payload (VNumber (ofZ 7)) VUndefined
                (fst established) (snd established)) as (_ & _ & R).
  split; [ | split ].
  - destruct A as (A1 & _ & A3); [simpl; discriminate | reflexivity | ].
    split; [exact A1 | exact A3].
  - apply D. reflexivity.
  - apply R; [simpl; discriminate | reflexivity].
Defined.

(** [destroy()] twice, then [end()], on the established socket. *)
Lemma teardown_is_idempotent_witness :
  let r := destroy (fst established) (snd established) in
  _destroyed (socket_of r) = true
  /\ destroy (socket_of r) (world_of r) = (Return tt, socket_of r, world_of r)
  /\ end_ (VString "bye") VUndefined (socket_of r) (world_of r)
     = (Return tt, socket_of r, world_of r).
Proof.
  intro r.
  pose proof (teardown_is_idempotent (socket_of r) (world_of r)) as (A & _).
  split; [reflexivity | ].
  destruct A as [A1 A2]; [reflexivity | ].
  split; [exact A1 | apply A2].
Defined.



(** [end("bye")] on the established socket: one write, then one end. *)
Lemma end_steps_witness :
  let r := end_ (VString "bye") VUndefined (fst established) (snd established) in
  outcome r = Return tt
  /\ _destroyed (socket_of r) = true
  /\ subscribed 1 1 (world_of r) = false
  /\ Sockets (world_of r)
     = (Sockets (snd established)
        ++ [Sockets_write 1 "Ynll" (VFunction noop); Sockets_end 1])%list.
Proof.
  intro r.
  destruct (end_steps (VString "bye") VUndefined
              (fst established) (snd established)) as (_ & _ & _ & A).
  destruct A as (A1 & A2 & A3 & A4);
    [reflexivity | reflexivity | simpl; discriminate | reflexivity | ].
  split; [exact A1 | split; [ | split; [apply A3 | exact A4] ] ].
  fold r in A2. rewrite A2. reflexivity.
Defined.

(** C7, as stated, fails on a handle that is not destroyed and not
    connected when data is given: the write throws, and [end] leaves the
    handle unmarked, its subscription in place, and issues no end
    command. *)
Lemma end_with_data_on_disconnected_handle :
  _destroyed client = false
  /\ let r := end_ (VString "bye") VUndefined client client_world in
     outcome r = Throw (new_Error Error "Socket is not connected." [])
     /\ _destroyed (socket_of r) = false
     /\ subscribed (_subscription client) 1 (world_of r) = true
     /\ ~ In (Sockets_end 1) (Sockets (world_of r)).
Proof.
  split; [reflexivity | ]. simpl.
  repeat split. intros [E | []]. discriminate E.
Qed.

(** A handle built, destroyed, and a second one built after it. *)
Lemma usedIds_only_grows_witness :
  exists s2 w2,
    new_TcpSocket 1 None (snd (run [call_destroy] (client, client_world)))
    = Some (s2, w2)
    /\ In (_id client) (usedIds (snd (run [call_destroy] (client, client_world))))
    /\ _id s2 <> _id client.
Proof.
  destruct (new_TcpSocket 1 None (snd (run [call_destroy] (client, client_world))))
    as [[s2 w2] | ] eqn:E; [ | discriminate E].
  exists s2, w2. split; [reflexivity | ].
  apply (proj2 (proj2 usedIds_only_grows)
           1%nat None empty_World client client_world [call_destroy]
           1%nat s2 w2 client_is_constructed E).
Defined.

(** C8, as stated, fails: the client handle, destroyed and with its
    subscription removed, still has its id in [usedIds]. *)
Lemma released_id_stays_in_usedIds :
  let sw := run [call_destroy] (client, client_world) in
  _destroyed (fst sw) = true
  /\ subscribed (_subscription client) (_id client) (snd sw) = false
  /\ In (_id client) (usedIds (snd sw)).
Proof. simpl. repeat split. left. reflexivity. Qed.

(** Flags across actions that are no [connect] event, and at a [connect]
    event. *)
Lemma readable_writable_lifecycle_witness :
  (readable (fst (run [call_connect (port_only (VNumber (ofZ 80))) VUndefined;
                       call_write (VString "hi") VUndefined;
                       native_event 1 data_event]
                      (client, client_world))) = false)
  /\ readable (socket_of (deliver 1 connect_event client client_world)) = true
  /\ writable (fst (run [call_destroy] established)) = true.
Proof.
  destruct readable_writable_lifecycle as (_ & A & B & C).
  split; [ | split ].
  - apply (A [call_connect (port_only (VNumber (ofZ 80))) VUndefined;
              call_write (VString "hi") VUndefined;
              native_event 1 data_event] client client_world).
    reflexivity.
  - apply (B 1%Z connect_event client client_world); reflexivity.
  - apply (C [call_destroy] (fst established) (snd established)); reflexivity.
Defined.

(** C9, as stated, fails after teardown: [destroy()], [end()] and a
    [close] event each leave [readable] and [writable] true. *)
Lemma flags_stay_true_after_teardown :
  (let s := fst (run [call_destroy] established) in
   _destroyed s = true /\ readable s = true /\ writable s = true)
  /\ (let s := fst (run [call_end VUndefined VUndefined] established) in
      _destroyed s = true /\ readable s = true /\ writable s = true)
  /\ (let s := fst (run [native_event 1 close_event] established) in
      _state s = DISCONNECTED /\ readable s = true /\ writable s = true).
Proof. simpl. repeat split. Qed.

(** [write] after [destroy()] on the established socket. *)
Lemma teardown_leaves_state_and_flags_witness :
  let r := destroy (fst established) (snd established) in
  _destroyed (socket_of r) = true
  /\ _state (socket_of r) = CONNECTED
  /\ outcome (write (VString "hi") VUndefined (socket_of r) (world_of r))
     = Return true
  /\ Sockets (world_of (write (VString "hi") VUndefined
                          (socket_of r) (world_of r)))
     = (Sockets (snd established)
        ++ [Sockets_destroy 1; Sockets_write 1 "aGk=" (VFunction noop)])%list.
Proof.
  intro r.
  destruct (teardown_leaves_state_and_flags (fst established) (snd established))
    as (F & Wr).
  destruct (F (socket_of r)) as (_ & St & _); [left; reflexivity | ].
  destruct (Wr eq_refl r (or_introl eq_refl) (VString "hi") VUndefined eq_refl)
    as (W1 & W2).
  split; [reflexivity | split; [rewrite St; reflexivity | split; [exact W1 | ] ] ].
  rewrite W2. reflexivity.
Defined.

(* ================================================================== *)
(** * Concrete runs for the further properties *)
(* ================================================================== *)

Import Examples.

Example accepted_is_connected :
  new_TcpSocket 0 (Some (Some 5001)) client_world = Some accepted
  /\ _id (fst accepted) = 5001
  /\ _state (fst accepted) = CONNECTED
  /\ usedIds (snd accepted) = [1; 5001].
Proof. repeat split. Qed.

Example idle_holds_a_timer :
  _timeout (fst idle) = Some 1%nat /\ armed 1 (snd idle) = true.
Proof. split; reflexivity. Qed.

(** [connect({ port: "8080" })] on the fresh client. *)
Lemma connect_forwards_host_and_port_witness :
  Sockets (world_of (connect (port_only (VString "8080")) VUndefined
                       client client_world))
  = [Sockets_createSocket 1;
     Sockets_connect 1 (VString "localhost") (ofZ 8080)
                     (port_only (VString "8080"))].
Proof.
  destruct (connect_forwards_host_and_port
              (port_only (VString "8080")) VUndefined client client_world
              eq_refl eq_refl) as [_ A].
  destruct (A 8080 (inject_Z 8080)) as [_ B];
    [right; reflexivity | reflexivity | lia | reflexivity | apply Qeq_refl | ].
  rewrite B. reflexivity.
Defined.




Example ToNumber_examples :
  ToNumber (VArray [VNumber (ofZ 8080)]) = ofZ 8080
  /\ ToNumber (VArray []) = ofZ 0
  /\ ToNumber (VArray [VString "80"]) = ofZ 80
  /\ ToNumber (VArray [VNumber (ofZ 80); VNumber (ofZ 81)]) = NaN
  /\ ToNumber (VArray [VNull]) = ofZ 0
  /\ ToNumber (VUint8Array [x50]) = ofZ 80
  /\ ToNumber (VBuffer [x38; x30]) = ofZ 80
  /\ ToNumber (VObject [("port", VNumber (ofZ 80))]) = NaN.
Proof. vm_compute. repeat split. Qed.



(** A [data] event after [destroy()] on the established socket. *)
Lemma no_event_reaches_a_torn_down_handle_witness :
  let r := destroy (fst established) (snd established) in
  deliver 1 data_event (socket_of r) (world_of r)
  = (Return false, socket_of r, world_of r).
Proof.
  intro r.
  exact (no_event_reaches_a_torn_down_handle
           (fst established) (snd established) r eq_refl
           (or_introl eq_refl) [] 1 data_event).
Defined.

Lemma empty_World_bounded : subscriptions_bounded empty_World.
Proof. intros e []. Qed.

(** An event for id 2 posted while only the client (id 1) exists. *)
Lemma events_for_other_ids_are_not_dispatched_witness :
  subscriptions_bounded empty_World
  /\ deliver 2 data_event client client_world
     = (Return false, client, client_world)
  /\ subscribed (_subscription client) 1 client_world = true.
Proof.
  destruct (events_for_other_ids_are_not_dispatched
              1%nat None empty_World client_world client
              empty_World_bounded client_is_constructed) as (_ & A & B).
  split; [exact empty_World_bounded | split; [ | exact A] ].
  apply (B [] 2 data_event). discriminate.
Defined.

(** A number is returned as it is. *)
Lemma normalizeError_properties_witness :
  normalizeError (VNumber (ofZ 5)) = VNumber (ofZ 5)
  /\ normalizeError (VString "ECONNRESET") = VError Error "ECONNRESET" [].
Proof.
  destruct (normalizeError_properties (VNumber (ofZ 5))) as (_ & _ & _ & A).
  split; [ | reflexivity ].
  rewrite A; [reflexivity | discriminate].
Defined.

(** The native side reports "ECONNRESET" for a write made with callback
    9, on the socket holding an idle timer. *)
Lemma write_acknowledgement_calls_back_once_witness :
  timers_wf (fst idle) (snd idle)
  /\ let r := write_callback (VFunction (UserFunction 9)) (VString "ECONNRESET")
                (fst idle) (snd idle) in
     called (world_of r)
     = [(UserFunction 9, [VError Error "ECONNRESET" []])]
     /\ armed 1 (world_of r) = false
     /\ outcome r = Return tt
     /\ _timeout (socket_of r) = None.
Proof.
  assert (W : timers_wf (fst idle) (snd idle)).
  { split.
    - intros e I. simpl in I. destruct I as [<- | []]. simpl. lia.
    - intros t E. simpl in E. inversion E. simpl. lia. }
  split; [exact W | ].
  intro r.
  destruct (write_acknowledgement_calls_back_once
              (VFunction (UserFunction 9)) (VString "ECONNRESET")
              (fst idle) (snd idle) W)
    as (A & _ & B & C);
    [right; eexists; reflexivity | ].
  destruct C as (C1 & C2 & _); [intros args s w; reflexivity | ].
  split; [exact A | split; [ | split; [exact C1 | exact C2] ] ].
  apply (B 1%nat). reflexivity.
Defined.

(** [end("bye", "utf8")] on the established socket. *)
Lemma end_passes_encoding_as_write_callback_witness :
  Sockets (world_of (end_ (VString "bye") (VString "utf8")
                       (fst established) (snd established)))
  = (Sockets (snd established)
     ++ [Sockets_write 1 "Ynll" (VString "utf8"); Sockets_end 1])%list
  /\ exists text,
       outcome (write_callback (VString "utf8") VUndefined
                  (fst established) (snd established))
       = Throw (VError TypeError text [VString "utf8"]).
Proof.
  destruct (end_passes_encoding_as_write_callback
              (VString "bye") (VString "utf8")
              (fst established) (snd established)) as [A B];
    try reflexivity; try discriminate.
  split; [exact A | ].
  apply (B VUndefined (fst established) (snd established)).
Defined.

(** [new TcpSocket({ id: 5001 })] with no draw allowed. *)
Lemma native_socket_construction_witness :
  exists s w',
    new_TcpSocket 0 (Some (Some 5001)) client_world = Some (s, w')
    /\ _state s = CONNECTED
    /\ usedIds w' = [1; 5001].
Proof.
  destruct (native_socket_construction 5001 0 client_world) as [A _];
    [discriminate | ].
  destruct A as (s & w' & N & _ & St & _ & _ & U & _).
  exists s, w'. split; [exact N | split; [exact St | exact U] ].
Defined.

(** The first client socket of a process. *)
Lemma client_socket_construction_witness :
  1 <= _id client <= 1000
  /\ Sockets client_world = [Sockets_createSocket (_id client)]
  /\ NoDup (usedIds client_world).
Proof.
  destruct (client_socket_construction 1 empty_World client_world client
              client_is_constructed)
    as (A & _ & _ & N & _ & _ & _ & S & _).
  split; [exact A | split; [exact S | apply N; constructor] ].
Defined.

(** [destroy()], [end()], [destroy()] and the timer coming due. *)
Lemma native_socket_is_closed_at_most_once_witness :
  exists more,
    Sockets (snd (run [call_destroy; call_end VUndefined VUndefined;
                       call_destroy; timer_due 1] idle))
    = (Sockets (snd idle) ++ more)%list
    /\ (teardown_calls more <= 1)%nat.
Proof.
  destruct (native_socket_is_closed_at_most_once
              [call_destroy; call_end VUndefined VUndefined;
               call_destroy; timer_due 1] (fst idle) (snd idle))
    as (more & A & B & _).
  exists more. split; [exact A | exact B].
Defined.


(** [setTimeout] three times in a row. *)
Lemma at_most_one_idle_timer_witness :
  one_timer client client_world
  /\ (length (timers (snd (run [call_setTimeout (ofZ 100) VUndefined;
                                call_setTimeout (ofZ 200) VUndefined;
                                call_setTimeout (ofZ 300) VUndefined]
                               (client, client_world)))) <= 1)%nat.
Proof.
  assert (O : one_timer client client_world) by (left; reflexivity).
  assert (N : forall name args s w,
             forallb (fun q => negb (arms_timer q))
                     (requests (behaviour name args s w)) = true).
  { intros name args s w. simpl. unfold functions.
    destruct (Nat.eqb name 13); reflexivity. }
  split; [exact O | ].
  apply (at_most_one_idle_timer
           [call_setTimeout (ofZ 100) VUndefined;
            call_setTimeout (ofZ 200) VUndefined;
            call_setTimeout (ofZ 300) VUndefined]
           N client client_world O).
Defined.

(** [Math.random()] returning one half. *)
Lemma randomPort_is_a_legal_port_witness :
  exists k,
    randomPort (ofZ 30268) = ofZ k /\ 5000 <= k <= 65535.
Proof.
  destruct (randomPort_is_a_legal_port (inject_Z 30268)) as (k & A & B & _).
  - unfold Qle. simpl. lia.
  - unfold Qlt. simpl. lia.
  - exists k. split; [exact A | exact B].
Defined.

Example randomPort_examples :
  randomPort (ofZ 0) = ofZ 5000
  /\ randomPort (ofZ 1) = ofZ 5001
  /\ randomPort (ofZ 30268) = ofZ 30652
  /\ randomPort (Finite (605359 # 10)) = ofZ 65535.
Proof. vm_compute. repeat split. Qed.
